(** * GoalRegionSampler: goal sampling over workspace goal regions

    A shallow embedding of
    [src/ompl_interface/src/modified_planners/goal_region_sampler.cpp].

    Conventions of the embedding.
    - A C++ [double] is a rational ([Q]); only comparisons and the fixed
      tolerance 0.02 are computed on, the trigonometry ([getRPY],
      [createQuaternionFromRPY], [sqrt]) is left to the environment.
    - [abs] at lines 186-190 is applied to a [double]; it is read as the
      absolute value on doubles.
    - An [unsigned int] is a [Z] with its wrap-around modulo 2^32 written out.
    - [v[i]] on a [std::vector] has no defined result out of range: the
      operations that index return [None] there.
    - Calls into MoveIt and OMPL (samplers, validity checker, constraint
      set, planner state read through [gls]) are fields of an environment
      record; those that depend on other threads or on random numbers thread
      an abstract world [W]. *)

From Stdlib Require Import List ZArith QArith Qabs Bool Lia Arith.
From Stdlib Require Import Sorted Permutation.
Import ListNotations.

Set Implicit Arguments.

(* ------------------------------------------------------------------ *)
(** ** Messages *)

(** [moveit_msgs::WorkspaceGoalRegion]: three position ranges, and for each
    of roll, pitch and yaw whether the angle is free. *)
Record Range := { min : Q; max : Q }.
Record FreeAngle := { free_value : bool }.
Record WorkspaceGoalRegion := {
  x : Range; y : Range; z : Range;
  roll : FreeAngle; pitch : FreeAngle; yaw : FreeAngle
}.

Record Point := { p_x : Q; p_y : Q; p_z : Q }.
Record Quaternion := { q_x : Q; q_y : Q; q_z : Q; q_w : Q }.

(** [moveit_msgs::Constraints], down to the fields the sampler touches:
    [position_constraints[0].constraint_region.primitive_poses[0].position]
    and [orientation_constraints[0].orientation]. *)
Record PositionConstraint := { primitive_poses : list Point }.
Record OrientationConstraint := { orientation : Quaternion }.
Record Constraints := {
  position_constraints : list PositionConstraint;
  orientation_constraints : list OrientationConstraint
}.

(** [Eigen::Affine3d] as read by the sampler: translation and rotation. *)
Record Pose := { translation : Point; rotation : Quaternion }.

(** [ompl::base::SE3StateSpace::StateType]. *)
Record SE3State := { getX : Q; getY : Q; getZ : Q; se3_rotation : Quaternion }.

(** [ompl::base::RealVectorBounds] of dimension 3. *)
Record RealVectorBounds := { low : Q * Q * Q; high : Q * Q * Q }.

(** Roll, pitch and yaw as returned by [tf::Matrix3x3::getRPY]. *)
Record RPY := { r_roll : Q; r_pitch : Q; r_yaw : Q }.

(* ------------------------------------------------------------------ *)
(** ** Numbers *)

Definition uint32 (n : Z) : Z := n mod 2 ^ 32.

(** [a > b] on doubles. *)
Definition Qgtb (a b : Q) : bool := negb (Qle_bool a b).

(** The tolerance of the fixed-axis checks: the [double] that the literal
    [0.02] denotes, 5764607523034235 / 2^58. *)
Definition epsilon : Q := 5764607523034235 # 288230376151711744.

(** [a[i] = v] on a vector; no defined result out of range. *)
Fixpoint assign {A} (l : list A) (i : nat) (v : A) : option (list A) :=
  match l, i with
  | [], _ => None
  | _ :: t, O => Some (v :: t)
  | h :: t, S j => option_map (cons h) (assign t j v)
  end.

(* ------------------------------------------------------------------ *)
(** ** Reading and writing a constraint message *)

(** [c.orientation_constraints[0].orientation] *)
Definition orientation0 (c : Constraints) : option Quaternion :=
  option_map orientation (nth_error (orientation_constraints c) 0).

(** [c.orientation_constraints[0].orientation.{x,y,z,w} = q] *)
Definition set_orientation0 (c : Constraints) (q : Quaternion) : option Constraints :=
  match orientation_constraints c with
  | [] => None
  | _ :: os =>
      Some {| position_constraints := position_constraints c;
              orientation_constraints := {| orientation := q |} :: os |}
  end.

(** [c.position_constraints[0].constraint_region.primitive_poses[0].position.{x,y,z} = p] *)
Definition set_position0 (c : Constraints) (p : Point) : option Constraints :=
  match position_constraints c with
  | [] => None
  | pc :: pcs =>
      match primitive_poses pc with
      | [] => None
      | _ :: pps =>
          Some {| position_constraints := {| primitive_poses := p :: pps |} :: pcs;
                  orientation_constraints := orientation_constraints c |}
      end
  end.

(* ------------------------------------------------------------------ *)
(** ** The sampler object *)

Section Sampler.

(** [ompl::base::State] (a configuration), [robot_state::RobotState],
    [constraint_samplers::ConstraintSampler] and the world outside the
    sampler. *)
Variables State RobotState ConstraintSampler W : Type.

(** [WeightedGoal]: the cloned configuration and its weight; the heap handle
    is the position in the queue and is not kept. *)
Record WeightedGoal := { state_ : State; weight_ : Q }.

(** The members of [GoalRegionSampler] the functions below read or write.
    [default_sampler_] is the pointer dereferenced at line 490, [None] when
    null; what the sampler it points to draws is the environment's
    [default_sampleUniform].
    [goals_priority_queue_] belongs to the base class
    [WeightedGoalRegionSampler]; its [insert] is modelled as adding to a
    list, the heap order is the base class's business. *)
Record GoalRegionSampler := {
  work_state_ : RobotState;
  invalid_sampled_constraints_ : Z;
  warned_invalid_samples_ : bool;
  verbose_display_ : Z;
  constrs_ : list Constraints;
  workspace_goal_regions_ : list WorkspaceGoalRegion;
  se3_spaces_ : list RealVectorBounds;
  se3_samplers_ : list RealVectorBounds;
  kinematic_constraint_set_ : list Constraints;
  constraint_sampler_ : option ConstraintSampler;
  default_sampler_ : option unit;
  goals_priority_queue_ : list WeightedGoal
}.

(** What the sampler calls and does not define. *)
Record Env := {
  (** [kinematic_state_->setJointGroupPositions] followed by
      [getGlobalLinkTransform("gripper_link")] *)
  gripper_link_transform : State -> Pose;
  (** [tf::Matrix3x3(q).getRPY(roll, pitch, yaw)] *)
  getRPY : Quaternion -> RPY;
  createQuaternionFromRPY : Q -> Q -> Q -> Quaternion;
  (** [ompl::base::WeightedGoalRegionSampler::distanceGoal] *)
  base_distanceGoal : State -> Q;
  (** [se3_samplers_[i]->sampleUniform(state)] *)
  se3_sampleUniform : RealVectorBounds -> W -> SE3State * W;
  (** [constraint_sampler_manager_->selectSampler], null as [None] *)
  selectSampler : list Constraints -> W -> option ConstraintSampler * W;
  (** [planning_context_->getOMPLProblemDefinition()->hasSolution()] *)
  hasSolution : W -> bool * W;
  samplingAttemptsCount : W -> Z * W;
  isSampling : W -> bool * W;
  getStateCount : W -> Z * W;
  (** [constraint_sampler_->project(work_state_, 2)] with the validity
      callback bound to [verbose] *)
  project : ConstraintSampler -> bool -> RobotState -> W -> (bool * RobotState) * W;
  update : RobotState -> RobotState;
  (** [kinematic_constraint_set_->decide(work_state_, verbose).satisfied] *)
  decide : list Constraints -> RobotState -> bool -> W -> bool * W;
  (** [StateValidityChecker::isValid(goal, verbose)] *)
  isValid : State -> bool -> W -> bool * W;
  copyToOMPLState : RobotState -> State;
  copyToRobotState : RobotState -> State -> RobotState;
  (** [default_sampler_->sampleUniform(goal)] *)
  default_sampleUniform : W -> State * W;
  (** [si_->getStateSpace()->equalStates] *)
  equalStates : State -> State -> bool;
  sqrt : Q -> Q
}.

Variable E : Env.

(* ------------------------------------------------------------------ *)
(** ** distanceGoal (lines 142-202) *)

(** The position test of lines 155-158. *)
Definition position_test (r : WorkspaceGoalRegion) (t : Point) : bool :=
  Qle_bool (min (x r)) (p_x t) && Qle_bool (p_x t) (max (x r)) &&
  Qle_bool (min (y r)) (p_y t) && Qle_bool (p_y t) (max (y r)).

Definition all_free (r : WorkspaceGoalRegion) : bool :=
  free_value (roll r) && free_value (pitch r) && free_value (yaw r).

(** Lines 185-191: [meet_orientation_const]. *)
Definition meet_orientation_const (r : WorkspaceGoalRegion) (constr pose : RPY) : bool :=
  let m := true in
  let m := if negb (free_value (roll r)) && Qgtb (Qabs (r_roll constr - r_roll pose)) epsilon
           then false else m in
  let m := if negb (free_value (pitch r)) && Qgtb (Qabs (r_pitch constr - r_pitch pose)) epsilon
           then false else m in
  let m := if negb (free_value (yaw r)) && Qgtb (Qabs (r_yaw constr - r_yaw pose)) epsilon
           then false else m in
  m.

(** The body of the loop of line 153 for region [i]: [Some true] when it
    reaches one of the two [return 0.0], [Some false] when it falls through
    to the next region. *)
Definition region_test (constrs : list Constraints) (i : nat)
    (r : WorkspaceGoalRegion) (ee_pose : Pose) : option bool :=
  if position_test r (translation ee_pose) then
    if all_free r then Some true
    else
      match nth_error constrs i with
      | None => None
      | Some c =>
          match orientation0 c with
          | None => None
          | Some q =>
              Some (meet_orientation_const r (getRPY E q) (getRPY E (rotation ee_pose)))
          end
      end
  else Some false.

(** The loop of line 153, from region [i] on. *)
Fixpoint inside_goal_region (constrs : list Constraints) (i : nat)
    (regions : list WorkspaceGoalRegion) (ee_pose : Pose) : option bool :=
  match regions with
  | [] => Some false
  | r :: rest =>
      match region_test constrs i r ee_pose with
      | None => None
      | Some true => Some true
      | Some false => inside_goal_region constrs (S i) rest ee_pose
      end
  end.

Definition distanceGoal (this : GoalRegionSampler) (st : State) : option Q :=
  let ee_pose := gripper_link_transform E st in
  match inside_goal_region (constrs_ this) 0 (workspace_goal_regions_ this) ee_pose with
  | None => None
  | Some true => Some 0
  | Some false => Some (base_distanceGoal E st)
  end.

(* ------------------------------------------------------------------ *)
(** ** getBetterSolution (lines 217-324) *)

(** The roadmap of [prm_planner_]: its vertices in the order of
    [boost::vertices(graph)], the configuration of each, the connectivity
    test and the path construction of [PRMMod]. *)
Definition Vertex := nat.
Record Roadmap := {
  vertices : list Vertex;
  stateProperty_ : Vertex -> State;
  sameComponent : Vertex -> Vertex -> bool;
  constructSolution : Vertex -> Vertex -> list State
}.

(** A [double] that starts at [std::numeric_limits<double>::infinity()]. *)
Inductive Distance := Finite (d : Q) | Infinity.

Definition distance_ltb (a b : Distance) : bool :=
  match a, b with
  | Finite p, Finite q => negb (Qle_bool q p)
  | Finite _, Infinity => true
  | Infinity, _ => false
  end.

(** [operator<] of [std::tuple<double, Vertex>]. *)
Definition tuple_ltb (a b : Distance * Vertex) : bool :=
  distance_ltb (fst a) (fst b) ||
  (negb (distance_ltb (fst b) (fst a)) && (snd a <? snd b)%nat).

(** [std::list::sort]: stable, by [operator<]. *)
Fixpoint sort_insert (e : Distance * Vertex) (l : list (Distance * Vertex)) :=
  match l with
  | [] => [e]
  | h :: t => if tuple_ltb h e then h :: sort_insert e t else e :: l
  end.

Definition sort (l : list (Distance * Vertex)) : list (Distance * Vertex) :=
  fold_right sort_insert [] l.

Definition centre (b : Range) : Q := (max b + min b) / 2.
Definition pow2 (q : Q) : Q := q * q.

(** Lines 256-262. *)
Definition gr_distance (r : WorkspaceGoalRegion) (t : Point) : Q :=
  sqrt E (pow2 (centre (x r) - p_x t) + pow2 (centre (y r) - p_y t)
          + pow2 (centre (z r) - p_z t)).

(** The loop of line 254. *)
Fixpoint region_distance (regions : list WorkspaceGoalRegion) (t : Point)
    (distance : Distance) : Distance :=
  match regions with
  | [] => distance
  | r :: rest =>
      let d := Finite (gr_distance r t) in
      region_distance rest t (if distance_ltb d distance then d else distance)
  end.

(** The loop of line 233 over the vertices still to visit: it appends one
    tuple per visited vertex and leaves at the [break] of line 280 with the
    start vertex. *)
Fixpoint scan_vertices (this : GoalRegionSampler) (g : Roadmap)
    (start_state_roadmap : State) (vs : list Vertex)
    (lst : list (Distance * Vertex))
    : list (Distance * Vertex) * option Vertex :=
  match vs with
  | [] => (lst, None)
  | v :: rest =>
      let ee_pose := gripper_link_transform E (stateProperty_ g v) in
      let distance :=
        region_distance (workspace_goal_regions_ this) (translation ee_pose) Infinity in
      let lst := lst ++ [(distance, v)] in
      if equalStates E start_state_roadmap (stateProperty_ g v)
      then (lst, Some v)
      else scan_vertices this g start_state_roadmap rest lst
  end.

(** The loop of line 289: the goal vertex is the first element of the sorted
    list in the component of the start vertex. *)
Fixpoint goal_vertex (g : Roadmap) (start_vertex : Vertex)
    (lst : list (Distance * Vertex)) : option Vertex :=
  match lst with
  | [] => None
  | element :: rest =>
      if sameComponent g start_vertex (snd element) then Some (snd element)
      else goal_vertex g start_vertex rest
  end.

(** [roadmap_internal_path] after the loop of line 289; [None] is the null
    pointer. *)
Definition roadmap_internal_path (g : Roadmap) (start_vertex : Vertex)
    (lst : list (Distance * Vertex)) : option (list State) :=
  match goal_vertex g start_vertex lst with
  | None => None
  | Some v =>
      if negb (equalStates E (stateProperty_ g start_vertex) (stateProperty_ g v))
      then Some (constructSolution g start_vertex v)
      else None
  end.

(** The list the loop of line 289 walks, when the start vertex was found. *)
Definition sorted_candidates (this : GoalRegionSampler) (g : Roadmap)
    (start_state_roadmap : State) : option (Vertex * list (Distance * Vertex)) :=
  match scan_vertices this g start_state_roadmap (vertices g) [] with
  | (lst, Some start_vertex) => Some (start_vertex, sort lst)
  | (_, None) => None
  end.

(** [getBetterSolution]: the solution path after the call. [back()] of an
    empty path has no defined result. *)
Definition getBetterSolution (this : GoalRegionSampler) (g : Roadmap)
    (solution_path : list State) : option (list State) :=
  match rev solution_path with
  | [] => None
  | start_state_roadmap :: _ =>
      match sorted_candidates this g start_state_roadmap with
      | Some (start_vertex, lst) =>
          match roadmap_internal_path g start_vertex lst with
          | Some path => Some (solution_path ++ tl path)
          | None => Some solution_path
          end
      | None => Some solution_path
      end
  end.

(* ------------------------------------------------------------------ *)
(** ** sampleUsingConstraintSampler (lines 345-515) *)

(** Member updates. *)
Definition with_work_state_ (v : RobotState) (s : GoalRegionSampler) :=
  {| work_state_ := v;
     invalid_sampled_constraints_ := invalid_sampled_constraints_ s;
     warned_invalid_samples_ := warned_invalid_samples_ s;
     verbose_display_ := verbose_display_ s;
     constrs_ := constrs_ s;
     workspace_goal_regions_ := workspace_goal_regions_ s;
     se3_spaces_ := se3_spaces_ s;
     se3_samplers_ := se3_samplers_ s;
     kinematic_constraint_set_ := kinematic_constraint_set_ s;
     constraint_sampler_ := constraint_sampler_ s;
     default_sampler_ := default_sampler_ s;
     goals_priority_queue_ := goals_priority_queue_ s |}.

Definition with_invalid (n : Z) (warned : bool) (s : GoalRegionSampler) :=
  {| work_state_ := work_state_ s;
     invalid_sampled_constraints_ := n;
     warned_invalid_samples_ := warned;
     verbose_display_ := verbose_display_ s;
     constrs_ := constrs_ s;
     workspace_goal_regions_ := workspace_goal_regions_ s;
     se3_spaces_ := se3_spaces_ s;
     se3_samplers_ := se3_samplers_ s;
     kinematic_constraint_set_ := kinematic_constraint_set_ s;
     constraint_sampler_ := constraint_sampler_ s;
     default_sampler_ := default_sampler_ s;
     goals_priority_queue_ := goals_priority_queue_ s |}.

Definition with_verbose_display_ (v : Z) (s : GoalRegionSampler) :=
  {| work_state_ := work_state_ s;
     invalid_sampled_constraints_ := invalid_sampled_constraints_ s;
     warned_invalid_samples_ := warned_invalid_samples_ s;
     verbose_display_ := v;
     constrs_ := constrs_ s;
     workspace_goal_regions_ := workspace_goal_regions_ s;
     se3_spaces_ := se3_spaces_ s;
     se3_samplers_ := se3_samplers_ s;
     kinematic_constraint_set_ := kinematic_constraint_set_ s;
     constraint_sampler_ := constraint_sampler_ s;
     default_sampler_ := default_sampler_ s;
     goals_priority_queue_ := goals_priority_queue_ s |}.

(** Lines 360-404 leave the object with a rewritten [constrs_], the
    constraint set of the region and the sampler selected for it. *)
Definition with_constraints (cs : list Constraints) (kcs : list Constraints)
    (sampler : option ConstraintSampler) (s : GoalRegionSampler) :=
  {| work_state_ := work_state_ s;
     invalid_sampled_constraints_ := invalid_sampled_constraints_ s;
     warned_invalid_samples_ := warned_invalid_samples_ s;
     verbose_display_ := verbose_display_ s;
     constrs_ := cs;
     workspace_goal_regions_ := workspace_goal_regions_ s;
     se3_spaces_ := se3_spaces_ s;
     se3_samplers_ := se3_samplers_ s;
     kinematic_constraint_set_ := kcs;
     constraint_sampler_ := sampler;
     default_sampler_ := default_sampler_ s;
     goals_priority_queue_ := goals_priority_queue_ s |}.

Definition with_goals_priority_queue_ (q : list WeightedGoal) (s : GoalRegionSampler) :=
  {| work_state_ := work_state_ s;
     invalid_sampled_constraints_ := invalid_sampled_constraints_ s;
     warned_invalid_samples_ := warned_invalid_samples_ s;
     verbose_display_ := verbose_display_ s;
     constrs_ := constrs_ s;
     workspace_goal_regions_ := workspace_goal_regions_ s;
     se3_spaces_ := se3_spaces_ s;
     se3_samplers_ := se3_samplers_ s;
     kinematic_constraint_set_ := kinematic_constraint_set_ s;
     constraint_sampler_ := constraint_sampler_ s;
     default_sampler_ := default_sampler_ s;
     goals_priority_queue_ := q |}.

(** What a call leaves for an observer, in program order. The trace is not
    part of the program: it names the points the properties speak about.
    - [EvAttempt i a count verbose constrained]: iteration [a] of the loop of
      line 432 for region [i] computed [verbose], having read [count] from
      [gls->getStateCount()]; [constrained] tells whether
      [constraint_sampler_] was non-null;
    - [EvWarned]: line 480 set [warned_invalid_samples_];
    - [EvAccept i constrained]: a goal was inserted into the queue. *)
Inductive Event :=
| EvAttempt (region : nat) (a : Z) (count : Z) (verbose constrained : bool)
| EvWarned
| EvAccept (region : nat) (constrained : bool).

(** The object, the caller's [sampled_states] vector, the world and the
    trace. *)
Record Ctx := {
  this : GoalRegionSampler;
  sampled_states : list State;
  world : W;
  trace : list Event
}.

(** Replacing the world of a context. *)
Definition with_world (w : W) (c : Ctx) : Ctx :=
  {| this := this c; sampled_states := sampled_states c;
     world := w; trace := trace c |}.

Definition max_attempts : Z := 2.
Definition max_attempts_div2 : Z := max_attempts / 2.

(** Lines 434-440. *)
Definition choose_verbose (count a : Z) (s : GoalRegionSampler)
    : bool * GoalRegionSampler :=
  if (count =? 0)%Z && (max_attempts_div2 <=? a)%Z then
    if (verbose_display_ s <? 1)%Z
    then (true, with_verbose_display_ (uint32 (verbose_display_ s + 1)) s)
    else (false, s)
  else (false, s).

(** Lines 477-484, with [attempts_so_far] as read at line 414. *)
Definition count_invalid (attempts_so_far : Z) (s : GoalRegionSampler)
    : GoalRegionSampler * list Event :=
  let n := uint32 (invalid_sampled_constraints_ s + 1) in
  if negb (warned_invalid_samples_ s) && (uint32 (attempts_so_far * 8) / 10 <=? n)%Z
  then (with_invalid n true s, [EvWarned])
  else (with_invalid n (warned_invalid_samples_ s) s, []).

(** Lines 467-470 and 499-502. *)
Definition insert_goal (new_goal : State) (s : GoalRegionSampler) :=
  with_goals_priority_queue_
    ({| state_ := new_goal; weight_ := 1 |} :: goals_priority_queue_ s) s.

(** The body of the loop of line 432 for region [i] at iteration [a]; the
    boolean tells whether the body left through one of its two [break]s,
    which are also the two places that set [success]. Dereferencing a null
    [default_sampler_] at line 490 has no defined result. *)
Definition attempt (i : nat) (attempts_so_far a : Z) (c : Ctx)
    : option (bool * Ctx) :=
  let '(count, w) := getStateCount E (world c) in
  let '(verbose, s) := choose_verbose count a (this c) in
  match constraint_sampler_ s with
  | Some sampler =>
      let tr := trace c ++ [EvAttempt i a count verbose true] in
      let '((projected, ws), w) := project E sampler verbose (work_state_ s) w in
      let s := with_work_state_ ws s in
      if projected then
        let s := with_work_state_ (update E ws) s in
        let '(satisfied, w) :=
          decide E (kinematic_constraint_set_ s) (work_state_ s) verbose w in
        if satisfied then
          let goal := copyToOMPLState E (work_state_ s) in
          let '(valid, w) := isValid E goal verbose w in
          if valid then
            Some (true, {| this := insert_goal goal s;
                           sampled_states := sampled_states c ++ [goal];
                           world := w;
                           trace := tr ++ [EvAccept i true] |})
          else
            Some (false, {| this := s; sampled_states := sampled_states c;
                            world := w; trace := tr |})
        else
          let '(s, ev) := count_invalid attempts_so_far s in
          Some (false, {| this := s; sampled_states := sampled_states c;
                          world := w; trace := tr ++ ev |})
      else
        Some (false, {| this := s; sampled_states := sampled_states c;
                        world := w; trace := tr |})
  | None =>
      match default_sampler_ s with
      | None => None
      | Some _ =>
          let tr := trace c ++ [EvAttempt i a count verbose false] in
          let '(goal, w) := default_sampleUniform E w in
          let '(valid, w) := isValid E goal verbose w in
          if valid then
            let s := with_work_state_ (copyToRobotState E (work_state_ s) goal) s in
            let '(satisfied, w) :=
              decide E (kinematic_constraint_set_ s) (work_state_ s) verbose w in
            if satisfied then
              Some (true, {| this := insert_goal goal s;
                             sampled_states := sampled_states c;
                             world := w;
                             trace := tr ++ [EvAccept i false] |})
            else
              Some (false, {| this := s; sampled_states := sampled_states c;
                              world := w; trace := tr |})
          else
            Some (false, {| this := s; sampled_states := sampled_states c;
                            world := w; trace := tr |})
      end
  end.

(** The loop of line 432 with [remaining] = [max_attempts - a] iterations to
    go: it stops when [a] reaches [max_attempts], when [gls->isSampling()]
    is false, or at a [break]. *)
Fixpoint attempt_loop (remaining : nat) (i : nat) (attempts_so_far : Z) (c : Ctx)
    : option (bool * Ctx) :=
  match remaining with
  | O => Some (false, c)
  | S k =>
      let '(sampling, w) := isSampling E (world c) in
      let c := with_world w c in
      if sampling then
        match attempt i attempts_so_far (max_attempts - Z.of_nat remaining) c with
        | None => None
        | Some (accepted, c) =>
            if accepted then Some (true, c) else attempt_loop k i attempts_so_far c
        end
      else Some (false, c)
  end.

(** Lines 369-400: the orientation written back when an axis is free. *)
Definition refresh_orientation (r : WorkspaceGoalRegion) (state : SE3State)
    (constr : Constraints) : option Constraints :=
  if free_value (roll r) || free_value (pitch r) || free_value (yaw r) then
    match orientation0 constr with
    | None => None
    | Some q_initial_goal =>
        let sampled := getRPY E (se3_rotation state) in
        let initial := getRPY E q_initial_goal in
        let q_new :=
          createQuaternionFromRPY E
            (if free_value (roll r) then r_roll sampled else r_roll initial)
            (if free_value (pitch r) then r_pitch sampled else r_pitch initial)
            (if free_value (yaw r) then r_yaw sampled else r_yaw initial) in
        set_orientation0 constr q_new
    end
  else Some constr.

(** Lines 354-406 for region [i]. *)
Definition prepare_region (i : nat) (r : WorkspaceGoalRegion) (c : Ctx) : option Ctx :=
  match nth_error (se3_spaces_ (this c)) i,
        nth_error (se3_samplers_ (this c)) i,
        nth_error (constrs_ (this c)) i with
  | Some _, Some sampler, Some constr =>
      let '(state, w) := se3_sampleUniform E sampler (world c) in
      match set_position0 constr
              {| p_x := getX state; p_y := getY state; p_z := getZ state |} with
      | None => None
      | Some constr =>
          match refresh_orientation r state constr with
          | None => None
          | Some constr =>
              match assign (constrs_ (this c)) i constr with
              | None => None
              | Some cs =>
                  let kcs := [constr] in
                  let '(sampler, w) := selectSampler E kcs w in
                  Some {| this := with_constraints cs kcs sampler (this c);
                          sampled_states := sampled_states c;
                          world := w; trace := trace c |}
              end
          end
      end
  | _, _, _ => None
  end.

(** The body of the loop of line 350 for region [i]; the boolean is
    [success] after it. *)
Definition sample_region (i : nat) (r : WorkspaceGoalRegion) (success : bool) (c : Ctx)
    : option (bool * Ctx) :=
  match prepare_region i r c with
  | None => None
  | Some c =>
      let '(attempts_so_far, w) := samplingAttemptsCount E (world c) in
      let attempts_so_far := uint32 attempts_so_far in
      let '(solved, w) := hasSolution E w in
      let c := with_world w c in
      if solved then Some (success, c)
      else
        match attempt_loop (Z.to_nat max_attempts) i attempts_so_far c with
        | None => None
        | Some (accepted, c) => Some (success || accepted, c)
        end
  end.

(** The loop of line 350 from region [i] on; the function does not write
    [workspace_goal_regions_], whose remaining elements are [regions]. *)
Fixpoint region_loop (regions : list WorkspaceGoalRegion) (i : nat) (success : bool)
    (c : Ctx) : option (bool * Ctx) :=
  match regions with
  | [] => Some (success, c)
  | r :: rest =>
      match sample_region i r success c with
      | None => None
      | Some (success, c) => region_loop rest (S i) success c
      end
  end.

Definition sampleUsingConstraintSampler (c : Ctx) : option (bool * Ctx) :=
  region_loop (workspace_goal_regions_ (this c)) 0 false c.

(* ------------------------------------------------------------------ *)
(** ** addState, clear and the constructor *)

(** Lines 204-215; the base class keeps the state in its own list. *)
Definition addState (st : State) (s : GoalRegionSampler) : GoalRegionSampler :=
  insert_goal st s.

(** Modelled from the spec: [WeightedGoalRegionSampler::clear()] of the base
    class is not among the sources; it empties the weighted goal queue
    ("[clear()] empties WeightedGoalQueue"). *)
Definition WeightedGoalRegionSampler_clear (s : GoalRegionSampler) :=
  with_goals_priority_queue_ [] s.

(** Lines 517-525. *)
Definition clear (s : GoalRegionSampler) : GoalRegionSampler :=
  let s := WeightedGoalRegionSampler_clear s in
  {| work_state_ := work_state_ s;
     invalid_sampled_constraints_ := invalid_sampled_constraints_ s;
     warned_invalid_samples_ := warned_invalid_samples_ s;
     verbose_display_ := verbose_display_ s;
     constrs_ := [];
     workspace_goal_regions_ := [];
     se3_spaces_ := [];
     se3_samplers_ := [];
     kinematic_constraint_set_ := kinematic_constraint_set_ s;
     constraint_sampler_ := constraint_sampler_ s;
     default_sampler_ := default_sampler_ s;
     goals_priority_queue_ := goals_priority_queue_ s |}.

Definition region_bounds (r : WorkspaceGoalRegion) : RealVectorBounds :=
  {| low := (min (x r), min (y r), min (z r));
     high := (max (x r), max (y r), max (z r)) |}.

(** The member initialisers and lines 82-107 of the constructor; no line of
    it assigns [default_sampler_], which stays null. *)
Definition construct (initial : RobotState) (constrs : list Constraints)
    (wsgrs : list WorkspaceGoalRegion) : GoalRegionSampler :=
  {| work_state_ := initial;
     invalid_sampled_constraints_ := 0;
     warned_invalid_samples_ := false;
     verbose_display_ := 0;
     constrs_ := constrs;
     workspace_goal_regions_ := wsgrs;
     se3_spaces_ := map region_bounds wsgrs;
     se3_samplers_ := map region_bounds wsgrs;
     kinematic_constraint_set_ := [];
     constraint_sampler_ := None;
     default_sampler_ := None;
     goals_priority_queue_ := [] |}.

(** The calls an owner makes on the object over its life; between two calls
    the world may have become any other. *)
Inductive Call :=
| CallSample (sampled_states : list State) (w : W)
| CallAddState (st : State)
| CallClear.

(** The object and the trace after a sequence of calls. *)
Fixpoint lifetime (calls : list Call) (s : GoalRegionSampler) (tr : list Event)
    : option (GoalRegionSampler * list Event) :=
  match calls with
  | [] => Some (s, tr)
  | CallSample ss w :: rest =>
      match sampleUsingConstraintSampler
              {| this := s; sampled_states := ss; world := w; trace := tr |} with
      | None => None
      | Some (_, c) => lifetime rest (this c) (trace c)
      end
  | CallAddState st :: rest => lifetime rest (addState st s) tr
  | CallClear :: rest => lifetime rest (clear s) tr
  end.

(** A constraint message has the position and the orientation the sampler
    writes to. *)
Definition constraint_ok (c : Constraints) : bool :=
  match position_constraints c, orientation_constraints c with
  | pc :: _, _ :: _ => match primitive_poses pc with [] => false | _ => true end
  | _, _ => false
  end.

Definition well_formed (s : GoalRegionSampler) : bool :=
  (length (workspace_goal_regions_ s) <=? length (se3_spaces_ s))%nat &&
  (length (workspace_goal_regions_ s) <=? length (se3_samplers_ s))%nat &&
  (length (workspace_goal_regions_ s) <=? length (constrs_ s))%nat &&
  forallb constraint_ok (constrs_ s).

(* ------------------------------------------------------------------ *)
(** ** Vocabulary of the properties *)

(** The position box of a region, in all three dimensions. *)
Definition inside_box (r : WorkspaceGoalRegion) (t : Point) : bool :=
  Qle_bool (min (x r)) (p_x t) && Qle_bool (p_x t) (max (x r)) &&
  Qle_bool (min (y r)) (p_y t) && Qle_bool (p_y t) (max (y r)) &&
  Qle_bool (min (z r)) (p_z t) && Qle_bool (p_z t) (max (z r)).

Definition is_verbose (ev : Event) : bool :=
  match ev with EvAttempt _ _ _ verbose _ => verbose | _ => false end.

Definition is_warned (ev : Event) : bool :=
  match ev with EvWarned => true | _ => false end.

Definition is_attempt_of (i : nat) (ev : Event) : bool :=
  match ev with EvAttempt j _ _ _ _ => (j =? i)%nat | _ => false end.

Definition verbose_count (tr : list Event) : nat := length (filter is_verbose tr).
Definition warned_count (tr : list Event) : nat := length (filter is_warned tr).
Definition attempts_of (i : nat) (tr : list Event) : nat :=
  length (filter (is_attempt_of i) tr).

(** Where [verbose] may be true: the state count read was zero and the
    iteration is in the upper half of the attempt loop. *)
Definition verbose_late (ev : Event) : Prop :=
  match ev with
  | EvAttempt _ a count true _ =>
      count = 0%Z /\ (max_attempts_div2 <= a < max_attempts)%Z
  | _ => True
  end.

(** The vectors indexed by the region loop keep their sizes and the
    constraint messages their shape. *)
Definition stable (c c' : Ctx) : Prop :=
  workspace_goal_regions_ (this c') = workspace_goal_regions_ (this c) /\
  se3_spaces_ (this c') = se3_spaces_ (this c) /\
  se3_samplers_ (this c') = se3_samplers_ (this c) /\
  length (constrs_ (this c')) = length (constrs_ (this c)) /\
  (forallb constraint_ok (constrs_ (this c)) = true ->
   forallb constraint_ok (constrs_ (this c')) = true) /\
  default_sampler_ (this c') = default_sampler_ (this c).

(** The trace grows by events that are verbose only late, and as many of
    them as [verbose_display_] grows, which stays within 0 and 1. *)
Definition verbose_step (c c' : Ctx) : Prop :=
  exists new,
    trace c' = trace c ++ new /\ Forall verbose_late new /\
    ((0 <= verbose_display_ (this c) <= 1)%Z ->
     (0 <= verbose_display_ (this c') <= 1)%Z /\
     verbose_display_ (this c') =
       (verbose_display_ (this c) + Z.of_nat (verbose_count new))%Z).

(** The trace grows by one [EvWarned] when [warned_invalid_samples_] goes
    from false to true, and by none otherwise. *)
Definition warned_step (c c' : Ctx) : Prop :=
  exists new,
    trace c' = trace c ++ new /\
    (warned_invalid_samples_ (this c) = true ->
     warned_count new = 0%nat /\ warned_invalid_samples_ (this c') = true) /\
    (warned_invalid_samples_ (this c) = false ->
     (warned_count new = 0%nat /\ warned_invalid_samples_ (this c') = false) \/
     (warned_count new = 1%nat /\ warned_invalid_samples_ (this c') = true)).

(** The queue grows at its front, and [b] tells whether it grew. *)
Definition queue_step (b : bool) (c c' : Ctx) : Prop :=
  exists added,
    goals_priority_queue_ (this c') = added ++ goals_priority_queue_ (this c) /\
    (b = true <-> added <> []).

(** What holds of the object and the trace between any two calls. *)
Definition lifetime_invariant (s : GoalRegionSampler) (tr : list Event) : Prop :=
  well_formed s = true /\
  ((0 <= verbose_display_ s <= 1)%Z /\
   Z.of_nat (verbose_count tr) = verbose_display_ s /\
   Forall verbose_late tr) /\
  ((warned_count tr <= 1)%nat /\
   (warned_count tr = 1%nat -> warned_invalid_samples_ s = true)).

(** *** Further vocabulary *)

(** [c.position_constraints[0].constraint_region.primitive_poses[0].position] *)
Definition position0 (c : Constraints) : option Point :=
  match position_constraints c with
  | [] => None
  | pc :: _ => nth_error (primitive_poses pc) 0
  end.

(** The manager finds a constraint sampler for whatever it is asked. *)
Definition resolves : Prop :=
  forall kcs w, fst (selectSampler E kcs w) <> None.

(** An attempt has a sampler to use: the default one is set, or a constraint
    sampler is always found. *)
Definition sampler_available (s : GoalRegionSampler) : Prop :=
  default_sampler_ s <> None \/ resolves.

(** The orders that [operator<] induces: [a] is not after [b]. *)
Definition distance_le (a b : Distance) : Prop := distance_ltb b a = false.
Definition tuple_le (a b : Distance * Vertex) : Prop := tuple_ltb b a = false.

(** The tuple pushed at line 269 for vertex [v]. *)
Definition scored (this : GoalRegionSampler) (g : Roadmap) (v : Vertex)
    : Distance * Vertex :=
  (region_distance (workspace_goal_regions_ this)
     (translation (gripper_link_transform E (stateProperty_ g v))) Infinity, v).

(** The queue and the caller's vector grow, every new goal has weight 1, and
    every state handed to the caller is one of the new goals. *)
Definition goals_step (c c' : Ctx) : Prop :=
  exists added new,
    goals_priority_queue_ (this c') = added ++ goals_priority_queue_ (this c) /\
    sampled_states c' = sampled_states c ++ new /\
    Forall (fun g => weight_ g = 1) added /\
    (forall st, In st new -> In {| state_ := st; weight_ := 1 |} added).

End Sampler.

(* ------------------------------------------------------------------ *)
(** ** Concrete objects *)

Module Examples.

Definition unit_range : Range := {| min := 0; max := 1 |}.

(** The box [0,1]^3 with every angle free. *)
Definition free_box : WorkspaceGoalRegion :=
  {| x := unit_range; y := unit_range; z := unit_range;
     roll := {| free_value := true |};
     pitch := {| free_value := true |};
     yaw := {| free_value := true |} |}.

(** The box [0,1]^3 with roll fixed, pitch and yaw free. *)
Definition fixed_roll_box : WorkspaceGoalRegion :=
  {| x := unit_range; y := unit_range; z := unit_range;
     roll := {| free_value := false |};
     pitch := {| free_value := true |};
     yaw := {| free_value := true |} |}.

(** The box [-1,1]^3, centred at the origin. *)
Definition centred_box : WorkspaceGoalRegion :=
  {| x := {| min := -1; max := 1 |};
     y := {| min := -1; max := 1 |};
     z := {| min := -1; max := 1 |};
     roll := {| free_value := true |};
     pitch := {| free_value := true |};
     yaw := {| free_value := true |} |}.

Definition identity : Quaternion := {| q_x := 0; q_y := 0; q_z := 0; q_w := 1 |}.

Definition pose_constraint : Constraints :=
  {| position_constraints :=
       [{| primitive_poses := [{| p_x := 0; p_y := 0; p_z := 0 |}] |}];
     orientation_constraints := [{| orientation := identity |}] |}.

(** A toy kinematics: configuration [n] puts the gripper at [(n/2, 1/2, 5)]
    with roll 1/2. *)
Definition high_pose (n : nat) : Pose :=
  {| translation := {| p_x := Z.of_nat n # 2; p_y := 1 # 2; p_z := 5 |};
     rotation := {| q_x := 1 # 2; q_y := 0; q_z := 0; q_w := 1 |} |}.

(** A toy kinematics: every configuration puts the gripper at the centre of
    the unit box with roll 1/2. *)
Definition tilted_pose (n : nat) : Pose :=
  {| translation := {| p_x := 1 # 2; p_y := 1 # 2; p_z := 1 # 2 |};
     rotation := {| q_x := 1 # 2; q_y := 0; q_z := 0; q_w := 1 |} |}.

(** A toy kinematics for the roadmap: configuration [0] at distance 5 from
    the origin, [1] at distance 3, any other at distance 1. *)
Definition axis_pose (n : nat) : Pose :=
  {| translation :=
       {| p_x := match n with O => 5 | 1%nat => 3 | _ => 1 end;
          p_y := 0; p_z := 0 |};
     rotation := identity |}.

(** An environment over configurations [nat], robot states [nat] and a world
    that counts the calls made into it. The angles of a quaternion are read
    off its first three components, the square root is the integer one;
    [attempts] is what [samplingAttemptsCount] answers, [resolves] whether a
    constraint sampler is found, [satisfied] what [decide] answers. *)
Definition env (fk : nat -> Pose) (attempts : Z) (resolves satisfied : bool)
    : Env nat nat unit nat :=
  {| gripper_link_transform := fk;
     getRPY := fun q => {| r_roll := q_x q; r_pitch := q_y q; r_yaw := q_z q |};
     createQuaternionFromRPY := fun r p y =>
       {| q_x := r; q_y := p; q_z := y; q_w := 1 |};
     base_distanceGoal := fun _ => 7;
     se3_sampleUniform := fun b w =>
       ({| getX := fst (fst (low b)); getY := snd (fst (low b));
           getZ := snd (low b); se3_rotation := identity |}, S w);
     selectSampler := fun _ w => (if resolves then Some tt else None, S w);
     hasSolution := fun w => (false, S w);
     samplingAttemptsCount := fun w => (attempts, S w);
     isSampling := fun w => (true, S w);
     getStateCount := fun w => (0%Z, S w);
     project := fun _ _ rs w => ((true, S rs), S w);
     update := fun rs => rs;
     decide := fun _ _ _ w => (satisfied, S w);
     isValid := fun _ _ w => (true, S w);
     copyToOMPLState := fun rs => rs;
     copyToRobotState := fun _ st => st;
     default_sampleUniform := fun w => (w, S w);
     equalStates := Nat.eqb;
     sqrt := fun q => inject_Z (Z.sqrt (Qnum q / Z.pos (Qden q))) |}.

Definition sampler (r : WorkspaceGoalRegion) : GoalRegionSampler nat nat unit :=
  @construct nat nat unit 0%nat [pose_constraint] [r].

Definition start (r : WorkspaceGoalRegion) : Ctx nat nat unit nat :=
  {| this := sampler r; sampled_states := []; world := 0%nat; trace := [] |}.

(** The context at the attempt loop once a constraint sampler is selected. *)
Definition prepared (r : WorkspaceGoalRegion) : Ctx nat nat unit nat :=
  {| this := with_constraints [pose_constraint] [pose_constraint] (Some tt) (sampler r);
     sampled_states := []; world := 0%nat; trace := [] |}.

(** Three vertices A = 0, B = 1, C = 2 whose configurations are their own
    numbers; A and B are connected, C is on its own. *)
Definition roadmap : Roadmap nat :=
  {| vertices := [0; 1; 2]%nat;
     stateProperty_ := fun v => v;
     sameComponent := fun a b => Bool.eqb (a <? 2)%nat (b <? 2)%nat;
     constructSolution := fun a b => [a; b] |}.

(** The environment [env high_pose 3 true true], but for a problem that
    already has a solution. *)
Definition solved_env : Env nat nat unit nat :=
  let E := env high_pose 3 true true in
  {| gripper_link_transform := gripper_link_transform E;
     getRPY := getRPY E;
     createQuaternionFromRPY := createQuaternionFromRPY E;
     base_distanceGoal := base_distanceGoal E;
     se3_sampleUniform := se3_sampleUniform E;
     selectSampler := selectSampler E;
     hasSolution := fun w => (true, S w);
     samplingAttemptsCount := samplingAttemptsCount E;
     isSampling := isSampling E;
     getStateCount := getStateCount E;
     project := project E;
     update := update E;
     decide := decide E;
     isValid := isValid E;
     copyToOMPLState := copyToOMPLState E;
     copyToRobotState := copyToRobotState E;
     default_sampleUniform := default_sampleUniform E;
     equalStates := equalStates E;
     sqrt := sqrt E |}.

(** The flag and the context a call returns. *)
Definition outcome (E : Env nat nat unit nat) (c : Ctx nat nat unit nat)
    : bool * Ctx nat nat unit nat :=
  match sampleUsingConstraintSampler E c with
  | Some r => r
  | None => (false, c)
  end.

(** The context after the preparation of region 0. *)
Definition prepared_by (E : Env nat nat unit nat) (r : WorkspaceGoalRegion)
    (c : Ctx nat nat unit nat) : Ctx nat nat unit nat :=
  match prepare_region E 0 r c with
  | Some c' => c'
  | None => c
  end.

(** An object built with a region and no constraint message. *)
Definition bare : Ctx nat nat unit nat :=
  {| this := @construct nat nat unit 0%nat [] [free_box];
     sampled_states := []; world := 0%nat; trace := [] |}.

End Examples.

(* ================================================================== *)
(** * Properties *)

Unset Implicit Arguments.

(** ** Rationals and vectors *)

Lemma Qgtb_true (a b : Q) : b < a -> Qgtb a b = true.
Proof.
  intros Hlt. unfold Qgtb.
  destruct (Qle_bool a b) eqn:Hle; [|reflexivity].
  apply Qle_bool_iff in Hle. exfalso. exact (Qlt_not_le _ _ Hlt Hle).
Qed.

Lemma assign_length {A} (l l' : list A) i v :
  assign l i v = Some l' -> length l' = length l.
Proof.
  revert i l'. induction l as [|h t IH]; intros [|j] l' H; simpl in H; try discriminate.
  - inversion H; reflexivity.
  - destruct (assign t j v) as [t'|] eqn:Ht; simpl in H; inversion H; subst.
    simpl. f_equal. eapply IH; eauto.
Qed.

Lemma assign_defined {A} (l : list A) i v :
  (i < length l)%nat -> exists l', assign l i v = Some l'.
Proof.
  revert i. induction l as [|h t IH]; intros [|j] H; simpl in *; try lia.
  - eauto.
  - destruct (IH j) as [t' Ht]; [lia|]. rewrite Ht. simpl. eauto.
Qed.

Lemma assign_forallb {A} (f : A -> bool) (l l' : list A) i v :
  assign l i v = Some l' -> forallb f l = true -> f v = true ->
  forallb f l' = true.
Proof.
  revert i l'. induction l as [|h t IH]; intros [|j] l' H Hl Hv; simpl in H; try discriminate.
  - inversion H; subst. simpl in *. apply andb_true_iff in Hl as [_ Ht].
    now rewrite Hv, Ht.
  - destruct (assign t j v) as [t'|] eqn:Ht; simpl in H; inversion H; subst.
    simpl in *. apply andb_true_iff in Hl as [Hh Hl]. rewrite Hh. simpl.
    eapply IH; eauto.
Qed.

Lemma nth_error_forallb {A} (f : A -> bool) (l : list A) i a :
  forallb f l = true -> nth_error l i = Some a -> f a = true.
Proof.
  intros Hl Hn. rewrite forallb_forall in Hl. apply Hl.
  eapply nth_error_In; eauto.
Qed.

Lemma nth_error_defined {A} (l : list A) i :
  (i < length l)%nat -> exists a, nth_error l i = Some a.
Proof.
  intros H. destruct (nth_error l i) eqn:Hn; [eauto|].
  apply nth_error_None in Hn. lia.
Qed.

(** ** Constraint messages keep their shape *)

Lemma constraint_ok_orientation0 c :
  constraint_ok c = true -> exists q, orientation0 c = Some q.
Proof.
  unfold constraint_ok, orientation0.
  destruct (position_constraints c); [discriminate|].
  destruct (orientation_constraints c) as [|o os]; [discriminate|].
  simpl. eauto.
Qed.

Lemma set_position0_ok c p :
  constraint_ok c = true ->
  exists c', set_position0 c p = Some c' /\ constraint_ok c' = true.
Proof.
  unfold constraint_ok, set_position0.
  destruct (position_constraints c) as [|pc pcs]; [discriminate|].
  destruct (orientation_constraints c) as [|o os]; [discriminate|].
  destruct (primitive_poses pc) as [|pp pps]; [discriminate|].
  intros _. eexists; split; reflexivity.
Qed.

Lemma set_orientation0_ok c q :
  constraint_ok c = true ->
  exists c', set_orientation0 c q = Some c' /\ constraint_ok c' = true.
Proof.
  unfold constraint_ok, set_orientation0.
  destruct (position_constraints c) as [|pc pcs]; [discriminate|].
  destruct (orientation_constraints c) as [|o os]; [discriminate|].
  intros H. eexists; split; [reflexivity|]. exact H.
Qed.

Section Facts.

Variables State RobotState ConstraintSampler W : Type.
Variable E : Env State RobotState ConstraintSampler W.

Abbreviation Sampler := (GoalRegionSampler State RobotState ConstraintSampler).
Abbreviation Context := (Ctx State RobotState ConstraintSampler W).
Abbreviation constructed := (@construct State RobotState ConstraintSampler).

(* ------------------------------------------------------------------ *)
(** ** distanceGoal *)

Lemma inside_box_position_test r t :
  inside_box r t = true -> position_test r t = true.
Proof.
  unfold inside_box, position_test. intros H.
  repeat (apply andb_true_iff in H as [H ?]).
  repeat (apply andb_true_iff; split); assumption.
Qed.

Lemma region_test_defined constrs i r ee :
  (i < length constrs)%nat -> forallb constraint_ok constrs = true ->
  exists b, region_test E constrs i r ee = Some b.
Proof.
  intros Hi Hok. unfold region_test.
  destruct (position_test r (translation ee)); [|eauto].
  destruct (all_free r); [eauto|].
  destruct (nth_error_defined constrs i Hi) as [c Hc]. rewrite Hc.
  destruct (constraint_ok_orientation0 c) as [q Hq].
  - eapply nth_error_forallb; eauto.
  - rewrite Hq. eauto.
Qed.

Lemma region_test_free constrs i r ee :
  position_test r (translation ee) = true -> all_free r = true ->
  region_test E constrs i r ee = Some true.
Proof. intros Hp Hf. unfold region_test. now rewrite Hp, Hf. Qed.

Lemma inside_goal_region_free constrs regions : forall i r ee,
  (i + length regions <= length constrs)%nat ->
  forallb constraint_ok constrs = true ->
  In r regions ->
  position_test r (translation ee) = true -> all_free r = true ->
  inside_goal_region E constrs i regions ee = Some true.
Proof.
  induction regions as [|r0 rest IH]; intros i r ee Hlen Hok Hin Hp Hf.
  - destruct Hin.
  - simpl in Hlen. simpl.
    destruct (region_test_defined constrs i r0 ee) as [b Hb]; [lia|assumption|].
    destruct Hin as [<-|Hin].
    + now rewrite (region_test_free constrs i r0 ee Hp Hf).
    + rewrite Hb. destruct b; [reflexivity|].
      apply IH with (r := r); auto. lia.
Qed.

(** Where no region passes the position test of lines 155-158, the loop
    falls through to the base class. *)
Lemma inside_goal_region_outside constrs regions : forall i ee,
  (forall r, In r regions -> position_test r (translation ee) = false) ->
  inside_goal_region E constrs i regions ee = Some false.
Proof.
  induction regions as [|r0 rest IH]; intros i ee Hout; [reflexivity|].
  simpl. unfold region_test. rewrite (Hout r0 (or_introl eq_refl)).
  apply IH. intros r Hr. apply Hout. now right.
Qed.

(** C4. A configuration whose end-effector position is inside the box of
    some region in x, y and z, where that region has roll, pitch and yaw
    free, has [distanceGoal] exactly 0 (on an object that holds a constraint
    message for each of its regions). *)
Theorem distanceGoal_inside_free_region (s : Sampler) (st : State) r :
  well_formed s = true ->
  In r (workspace_goal_regions_ s) ->
  inside_box r (translation (gripper_link_transform E st)) = true ->
  all_free r = true ->
  distanceGoal E s st = Some 0.
Proof.
  intros Hwf Hin Hbox Hfree. unfold distanceGoal.
  unfold well_formed in Hwf.
  apply andb_true_iff in Hwf as [Hwf Hok].
  apply andb_true_iff in Hwf as [_ Hlen]. apply Nat.leb_le in Hlen.
  rewrite (inside_goal_region_free (constrs_ s) (workspace_goal_regions_ s) 0 r);
    auto using inside_box_position_test.
Qed.

(** C3. A region with roll fixed whose constraint has roll 0, and an
    end-effector pose inside its box whose roll differs from 0 by 0.5 rad:
    the loop body of [distanceGoal] does not return 0 for that region, it
    goes on to the next one. *)
Theorem fixed_roll_off_by_half_not_inside constrs i r (ee : Pose) c q :
  free_value (roll r) = false ->
  nth_error constrs i = Some c ->
  orientation0 c = Some q ->
  r_roll (getRPY E q) == 0 ->
  Qabs (r_roll (getRPY E (rotation ee)) - 0) == 1 # 2 ->
  inside_box r (translation ee) = true ->
  region_test E constrs i r ee = Some false.
Proof.
  intros Hfixed Hc Hq Hzero Hdiff Hbox.
  assert (Hgt : Qgtb (Qabs (r_roll (getRPY E q) - r_roll (getRPY E (rotation ee))))
                  epsilon = true).
  { apply Qgtb_true.
    assert (Heq : Qabs (r_roll (getRPY E q) - r_roll (getRPY E (rotation ee))) == 1 # 2).
    { rewrite Hzero, <- Hdiff.
      setoid_replace (0 - r_roll (getRPY E (rotation ee)))
        with (- (r_roll (getRPY E (rotation ee)) - 0)) by ring.
      apply Qabs_opp. }
    rewrite Heq. reflexivity. }
  unfold region_test.
  rewrite (inside_box_position_test _ _ Hbox).
  unfold all_free. rewrite Hfixed. cbn [andb]. rewrite Hc, Hq.
  unfold meet_orientation_const. cbv zeta. rewrite Hfixed, Hgt. cbn [negb andb].
  repeat match goal with
         | |- context [if ?b then _ else _] => destruct b
         end; reflexivity.
Qed.

(* ------------------------------------------------------------------ *)
(** ** sampleUsingConstraintSampler: the two loops *)

(** Case analysis of an equation [H] about a body of the sampler. *)
Ltac cases_in H :=
  repeat match type of H with
         | context [match ?t with _ => _ end] => destruct t eqn:?
         end.

Lemma choose_verbose_cases count a (s s' : Sampler) verbose :
  choose_verbose count a s = (verbose, s') ->
  (verbose = false /\ s' = s) \/
  (verbose = true /\ count = 0%Z /\ (max_attempts_div2 <= a)%Z /\
   (verbose_display_ s < 1)%Z /\
   s' = with_verbose_display_ (uint32 (verbose_display_ s + 1)) s).
Proof.
  unfold choose_verbose. intros H.
  destruct (count =? 0)%Z eqn:Hc; simpl in H.
  - destruct (max_attempts_div2 <=? a)%Z eqn:Ha; simpl in H.
    + destruct (verbose_display_ s <? 1)%Z eqn:Hv; inversion H; subst; auto.
      right. repeat split; auto; lia.
    + inversion H; auto.
  - inversion H; auto.
Qed.

Lemma count_invalid_cases n (s s' : Sampler) ev :
  count_invalid n s = (s', ev) ->
  exists warned,
    s' = with_invalid (uint32 (invalid_sampled_constraints_ s + 1)) warned s /\
    ((ev = [] /\ warned = warned_invalid_samples_ s) \/
     (ev = [EvWarned] /\ warned = true /\ warned_invalid_samples_ s = false)).
Proof.
  unfold count_invalid. intros H.
  destruct (warned_invalid_samples_ s) eqn:Hw; simpl in H.
  - inversion H; subst. eauto.
  - destruct (_ <=? _)%Z; inversion H; subst; eauto 6.
Qed.

(** A relation between the context before and after that holds across the
    straight-line parts and across one attempt holds across the loops. *)
Section Lift.

Variable R : Context -> Context -> Prop.
Hypothesis R_refl : forall c, R c c.
Hypothesis R_trans : forall c1 c2 c3, R c1 c2 -> R c2 c3 -> R c1 c3.
Hypothesis R_world : forall c w, R c (with_world w c).
Hypothesis R_prepare : forall i r c c', prepare_region E i r c = Some c' -> R c c'.
Hypothesis R_attempt : forall i n a c b c',
  (0 <= a < max_attempts)%Z -> attempt E i n a c = Some (b, c') -> R c c'.

Lemma lift_attempt_loop : forall k i n c b c',
  (k <= Z.to_nat max_attempts)%nat ->
  attempt_loop E k i n c = Some (b, c') -> R c c'.
Proof.
  induction k as [|k IH]; intros i n c b c' Hk H.
  - inversion H; subst. apply R_refl.
  - cbn [attempt_loop] in H.
    destruct (isSampling E (world c)) as [sampling w].
    destruct sampling.
    + destruct (attempt E i n (max_attempts - Z.of_nat (S k)) (with_world w c))
        as [[accepted c1]|] eqn:Ha; [|discriminate].
      assert (R c c1).
      { apply R_trans with (with_world w c); [apply R_world|].
        eapply R_attempt; [|exact Ha]. unfold max_attempts in *. lia. }
      destruct accepted.
      * inversion H; subst; assumption.
      * apply R_trans with c1; [assumption|]. eapply IH; [|exact H]. lia.
    + inversion H; subst. apply R_world.
Qed.

Lemma lift_sample_region i r b c b' c' :
  sample_region E i r b c = Some (b', c') -> R c c'.
Proof.
  unfold sample_region. intros H.
  destruct (prepare_region E i r c) as [c1|] eqn:Hp; [|discriminate].
  apply R_prepare in Hp.
  destruct (samplingAttemptsCount E (world c1)) as [n w].
  destruct (hasSolution E w) as [solved w'].
  apply R_trans with c1; [assumption|].
  destruct solved.
  - inversion H; subst. apply R_world.
  - destruct (attempt_loop E _ i _ (with_world w' c1)) as [[accepted c2]|] eqn:Hl; [|discriminate].
    inversion H; subst.
    apply R_trans with (with_world w' c1); [apply R_world|].
    eapply lift_attempt_loop; [|exact Hl]. lia.
Qed.

Lemma lift_region_loop : forall regions i b c b' c',
  region_loop E regions i b c = Some (b', c') -> R c c'.
Proof.
  induction regions as [|r rest IH]; intros i b c b' c' H; simpl in H.
  - inversion H; subst. apply R_refl.
  - destruct (sample_region E i r b c) as [[b1 c1]|] eqn:Hs; [|discriminate].
    apply R_trans with c1.
    + eapply lift_sample_region; eauto.
    + eapply IH; eauto.
Qed.

Lemma lift_call c b c' :
  sampleUsingConstraintSampler E c = Some (b, c') -> R c c'.
Proof. apply lift_region_loop. Qed.

End Lift.

Ltac attempt_cases H :=
  unfold attempt in H; cases_in H; inversion H; subst; clear H;
  repeat match goal with
         | Hc : choose_verbose _ _ _ = _ |- _ =>
             apply choose_verbose_cases in Hc;
             destruct Hc as [[? ?]|(? & ? & ? & ? & ?)]; subst
         | Hc : count_invalid _ _ = _ |- _ =>
             apply count_invalid_cases in Hc;
             destruct Hc as (? & ? & [[? ?]|(? & ? & ?)]); subst
         end.

Ltac trace_grows := cbn; rewrite <- ?app_assoc; reflexivity.

(** *** What stays as it was *)

Lemma stable_refl (c : Context) : stable c c.
Proof. repeat split; auto. Qed.

Lemma stable_trans (c1 c2 c3 : Context) : stable c1 c2 -> stable c2 c3 -> stable c1 c3.
Proof.
  intros (A1 & A2 & A3 & A4 & A5 & A6) (B1 & B2 & B3 & B4 & B5 & B6).
  repeat split; try congruence; auto.
Qed.

Lemma attempt_stable i n a (c : Context) b c' :
  attempt E i n a c = Some (b, c') -> stable c c'.
Proof. intros H. attempt_cases H; repeat split; auto. Qed.

Lemma refresh_orientation_ok r state constr :
  constraint_ok constr = true ->
  exists constr', refresh_orientation E r state constr = Some constr' /\
                  constraint_ok constr' = true.
Proof.
  intros Hok. unfold refresh_orientation.
  destruct (_ || _); [|eauto].
  destruct (constraint_ok_orientation0 constr Hok) as [q ->].
  apply set_orientation0_ok; assumption.
Qed.

Lemma prepare_region_stable i r (c c' : Context) :
  prepare_region E i r c = Some c' ->
  stable c c' /\ trace c' = trace c /\ sampled_states c' = sampled_states c /\
  goals_priority_queue_ (this c') = goals_priority_queue_ (this c) /\
  verbose_display_ (this c') = verbose_display_ (this c) /\
  warned_invalid_samples_ (this c') = warned_invalid_samples_ (this c).
Proof.
  unfold prepare_region. intros H. cases_in H; inversion H; subst; clear H.
  cbn. repeat split; auto.
  - eapply assign_length; eauto.
  - intros Hok. eapply assign_forallb; eauto.
    match goal with
    | Hn : nth_error (constrs_ (this c)) i = Some ?c0 |- _ =>
        pose proof (nth_error_forallb _ _ _ _ Hok Hn) as Hc0
    end.
    match goal with
    | Hp : set_position0 ?c0 ?p = Some ?c1 |- _ =>
        destruct (set_position0_ok c0 p Hc0) as (c1' & Hp' & Hc1);
        rewrite Hp in Hp'; inversion Hp'; subst
    end.
    match goal with
    | Hr : refresh_orientation E r ?st ?c1 = Some ?c2 |- _ =>
        destruct (refresh_orientation_ok r st c1 Hc1) as (c2' & Hr' & Hc2);
        rewrite Hr in Hr'; inversion Hr'; subst
    end.
    assumption.
Qed.

Lemma call_stable (c : Context) b c' :
  sampleUsingConstraintSampler E c = Some (b, c') -> stable c c'.
Proof.
  apply lift_call.
  - apply stable_refl.
  - apply stable_trans.
  - intros c0 w. repeat split; auto.
  - intros i r c0 c0' H. apply (prepare_region_stable i r c0 c0' H).
  - intros i n a c0 b0 c0' _. apply attempt_stable.
Qed.

(** *** The call returns *)

Lemma prepare_region_defined i r (c : Context) :
  (i < length (se3_spaces_ (this c)))%nat ->
  (i < length (se3_samplers_ (this c)))%nat ->
  (i < length (constrs_ (this c)))%nat ->
  forallb constraint_ok (constrs_ (this c)) = true ->
  exists c', prepare_region E i r c = Some c'.
Proof.
  intros H1 H2 H3 Hok. unfold prepare_region.
  destruct (nth_error_defined _ i H1) as [b1 ->].
  destruct (nth_error_defined _ i H2) as [b2 ->].
  destruct (nth_error_defined _ i H3) as [c0 Hc0]. rewrite Hc0.
  destruct (se3_sampleUniform E b2 (world c)) as [state w].
  pose proof (nth_error_forallb _ _ _ _ Hok Hc0) as Hk.
  destruct (set_position0_ok c0
              {| p_x := getX state; p_y := getY state; p_z := getZ state |} Hk)
    as (c1 & -> & Hk1).
  destruct (refresh_orientation_ok r state c1 Hk1) as (c2 & -> & Hk2).
  destruct (assign_defined (constrs_ (this c)) i c2 H3) as [cs ->].
  destruct (selectSampler E [c2] w). eauto.
Qed.

Lemma prepare_region_selects i r (c c' : Context) :
  prepare_region E i r c = Some c' ->
  exists kcs w, constraint_sampler_ (this c') = fst (selectSampler E kcs w).
Proof.
  unfold prepare_region. intros H. cases_in H; inversion H; subst; clear H. cbn.
  match goal with
  | Hs : selectSampler E ?kcs ?w = _ |- _ => exists kcs, w; now rewrite Hs
  end.
Qed.

Lemma attempt_defined i n a (c : Context) :
  constraint_sampler_ (this c) <> None \/ default_sampler_ (this c) <> None ->
  exists b c',
    attempt E i n a c = Some (b, c') /\
    constraint_sampler_ (this c') = constraint_sampler_ (this c) /\
    default_sampler_ (this c') = default_sampler_ (this c).
Proof.
  intros Hs. destruct (attempt E i n a c) as [[b c']|] eqn:H.
  - exists b, c'. split; [reflexivity|]. attempt_cases H; auto.
  - exfalso. unfold attempt in H. cases_in H; try discriminate.
    match goal with
    | Hc : choose_verbose _ _ _ = _ |- _ =>
        apply choose_verbose_cases in Hc;
        destruct Hc as [[_ ->]|(_ & _ & _ & _ & ->)]
    end; cbn in *; destruct Hs; congruence.
Qed.

Lemma attempt_loop_defined : forall k i n (c : Context),
  constraint_sampler_ (this c) <> None \/ default_sampler_ (this c) <> None ->
  exists b c', attempt_loop E k i n c = Some (b, c').
Proof.
  induction k as [|k IH]; intros i n c Hs; cbn [attempt_loop]; [eauto|].
  destruct (isSampling E (world c)) as [[|] w]; [|eauto].
  destruct (attempt_defined i n (max_attempts - Z.of_nat (S k)) (with_world w c) Hs)
    as (b & c1 & -> & Hc & Hd).
  destruct b; [eauto|]. apply IH. cbn in Hc, Hd. now rewrite Hc, Hd.
Qed.

Lemma sample_region_defined i r b (c : Context) :
  (i < length (se3_spaces_ (this c)))%nat ->
  (i < length (se3_samplers_ (this c)))%nat ->
  (i < length (constrs_ (this c)))%nat ->
  forallb constraint_ok (constrs_ (this c)) = true ->
  sampler_available E (this c) ->
  exists b' c', sample_region E i r b c = Some (b', c').
Proof.
  intros H1 H2 H3 Hok Hav. unfold sample_region.
  destruct (prepare_region_defined i r c H1 H2 H3 Hok) as [c1 Hp]. rewrite Hp.
  destruct (prepare_region_stable i r c c1 Hp) as ((_ & _ & _ & _ & _ & Hd) & _).
  destruct (prepare_region_selects i r c c1 Hp) as (kcs & w0 & Hsel).
  destruct (samplingAttemptsCount E (world c1)) as [n w].
  destruct (hasSolution E w) as [[|] w']; [eauto|].
  destruct (attempt_loop_defined (Z.to_nat max_attempts) i (uint32 n) (with_world w' c1))
    as (b1 & c2 & ->); [|eauto].
  cbn. destruct Hav as [Hav|Hav].
  - right. now rewrite Hd.
  - left. rewrite Hsel. apply Hav.
Qed.

Lemma sample_region_stable i r b (c : Context) b' c' :
  sample_region E i r b c = Some (b', c') -> stable c c'.
Proof.
  apply lift_sample_region.
  - apply stable_refl.
  - apply stable_trans.
  - intros c0 w. repeat split; auto.
  - intros i0 r0 c0 c0' H. apply (prepare_region_stable i0 r0 c0 c0' H).
  - intros i0 n a c0 b0 c0' _. apply attempt_stable.
Qed.

Lemma region_loop_defined : forall regions i b (c : Context),
  (i + length regions <= length (se3_spaces_ (this c)))%nat ->
  (i + length regions <= length (se3_samplers_ (this c)))%nat ->
  (i + length regions <= length (constrs_ (this c)))%nat ->
  forallb constraint_ok (constrs_ (this c)) = true ->
  sampler_available E (this c) ->
  exists b' c', region_loop E regions i b c = Some (b', c').
Proof.
  induction regions as [|r rest IH]; intros i b c H1 H2 H3 Hok Hav; simpl in *.
  - eauto.
  - destruct (sample_region_defined i r b c) as (b1 & c1 & Hs); try lia; auto.
    rewrite Hs.
    destruct (sample_region_stable _ _ _ _ _ _ Hs) as (_ & E1 & E2 & E3 & E4 & E5).
    apply IH; rewrite ?E1, ?E2, ?E3; auto; try lia.
    destruct Hav as [Hav|Hav]; [left; now rewrite E5|now right].
Qed.

Lemma well_formed_stable (c c' : Context) :
  stable c c' -> well_formed (this c) = true -> well_formed (this c') = true.
Proof.
  intros (E0 & E1 & E2 & E3 & E4 & _). unfold well_formed.
  rewrite E0, E1, E2. intros H.
  apply andb_true_iff in H as [H Hok].
  apply andb_true_iff in H as [H H3]. apply Nat.leb_le in H3.
  rewrite H, (E4 Hok), andb_true_r. simpl. apply Nat.leb_le. lia.
Qed.

Lemma call_defined (c : Context) :
  well_formed (this c) = true ->
  sampler_available E (this c) ->
  exists b c', sampleUsingConstraintSampler E c = Some (b, c') /\
               well_formed (this c') = true.
Proof.
  intros Hwf Hav. pose proof Hwf as H. unfold well_formed in H.
  apply andb_true_iff in H as [H Hok].
  apply andb_true_iff in H as [H H3].
  apply andb_true_iff in H as [H1 H2].
  apply Nat.leb_le in H1, H2, H3.
  destruct (region_loop_defined (workspace_goal_regions_ (this c)) 0 false c)
    as (b & c' & Hr); auto.
  exists b, c'. split; [exact Hr|].
  eapply well_formed_stable; [|exact Hwf]. eapply call_stable; exact Hr.
Qed.

(** *** The verbose flag *)

Lemma verbose_count_app (t1 t2 : list Event) :
  verbose_count (t1 ++ t2) = (verbose_count t1 + verbose_count t2)%nat.
Proof. unfold verbose_count. now rewrite filter_app, length_app. Qed.

Lemma warned_count_app (t1 t2 : list Event) :
  warned_count (t1 ++ t2) = (warned_count t1 + warned_count t2)%nat.
Proof. unfold warned_count. now rewrite filter_app, length_app. Qed.

Lemma attempts_of_app i (t1 t2 : list Event) :
  attempts_of i (t1 ++ t2) = (attempts_of i t1 + attempts_of i t2)%nat.
Proof. unfold attempts_of. now rewrite filter_app, length_app. Qed.

Lemma verbose_step_refl (c : Context) : verbose_step c c.
Proof.
  exists []. rewrite app_nil_r. repeat split; auto; cbn; lia.
Qed.

Lemma verbose_step_trans (c1 c2 c3 : Context) :
  verbose_step c1 c2 -> verbose_step c2 c3 -> verbose_step c1 c3.
Proof.
  intros (n1 & T1 & F1 & V1) (n2 & T2 & F2 & V2).
  exists (n1 ++ n2). split; [|split].
  - now rewrite T2, T1, app_assoc.
  - apply Forall_app; auto.
  - intros H0. destruct (V1 H0) as [B1 Q1]. destruct (V2 B1) as [B2 Q2].
    split; [assumption|]. rewrite verbose_count_app. lia.
Qed.

Lemma attempt_verbose_step i n a (c : Context) b c' :
  (0 <= a < max_attempts)%Z -> attempt E i n a c = Some (b, c') -> verbose_step c c'.
Proof.
  intros Ha H. attempt_cases H;
    (eexists; split; [trace_grows|]; split;
     [repeat constructor; cbn; auto; lia
     |cbn; unfold uint32; intros Hv;
      try (replace (verbose_display_ (this c)) with 0%Z in * by lia);
      cbn; lia]).
Qed.

Lemma call_verbose_step (c : Context) b c' :
  sampleUsingConstraintSampler E c = Some (b, c') -> verbose_step c c'.
Proof.
  apply lift_call.
  - apply verbose_step_refl.
  - apply verbose_step_trans.
  - intros c0 w. exact (verbose_step_refl c0).
  - intros i r c0 c0' H.
    destruct (prepare_region_stable i r c0 c0' H) as (_ & T & _ & _ & V & _).
    exists []. rewrite app_nil_r, V. repeat split; auto; cbn; lia.
  - apply attempt_verbose_step.
Qed.

(** *** The warned flag *)

Lemma warned_step_refl (c : Context) : warned_step c c.
Proof. exists []. rewrite app_nil_r. cbn. auto. Qed.

Lemma warned_step_trans (c1 c2 c3 : Context) :
  warned_step c1 c2 -> warned_step c2 c3 -> warned_step c1 c3.
Proof.
  intros (n1 & T1 & A1 & B1) (n2 & T2 & A2 & B2).
  exists (n1 ++ n2). split; [now rewrite T2, T1, app_assoc|].
  rewrite warned_count_app. split.
  - intros H. destruct (A1 H) as [-> H2]. destruct (A2 H2) as [-> H3]. auto.
  - intros H. destruct (B1 H) as [[-> H2]|[-> H2]].
    + destruct (B2 H2) as [[-> H3]|[-> H3]]; auto.
    + destruct (A2 H2) as [-> H3]; auto.
Qed.

Lemma attempt_warned_step i n a (c : Context) b c' :
  attempt E i n a c = Some (b, c') -> warned_step c c'.
Proof.
  intros H. attempt_cases H;
    (eexists; split; [trace_grows|]; cbn in *; split; intros Hw; auto;
     try congruence).
Qed.

Lemma call_warned_step (c : Context) b c' :
  sampleUsingConstraintSampler E c = Some (b, c') -> warned_step c c'.
Proof.
  apply lift_call.
  - apply warned_step_refl.
  - apply warned_step_trans.
  - intros c0 w. exact (warned_step_refl c0).
  - intros i r c0 c0' H.
    destruct (prepare_region_stable i r c0 c0' H) as (_ & T & _ & _ & _ & V).
    exists []. rewrite app_nil_r, V. cbn. auto.
  - intros i n a c0 b0 c0' _. apply attempt_warned_step.
Qed.

(** *** The queue and the returned flag *)

Lemma attempt_queue_step i n a (c : Context) b c' :
  attempt E i n a c = Some (b, c') -> queue_step b c c'.
Proof.
  intros H. attempt_cases H;
    solve [ exists []; cbn; split; [reflexivity|split; [discriminate|congruence]]
          | eexists [_]; cbn; split; [reflexivity|split; [discriminate|reflexivity]] ].
Qed.




(** *** The number of attempts *)

Lemma attempt_counts i n a (c : Context) b c' :
  attempt E i n a c = Some (b, c') ->
  exists new, trace c' = trace c ++ new /\
    forall j, attempts_of j new = if (i =? j)%nat then 1%nat else 0%nat.
Proof.
  intros H. attempt_cases H;
    (eexists; split; [trace_grows|]; intros j; unfold attempts_of; cbn;
     destruct (i =? j)%nat; reflexivity).
Qed.

Lemma attempt_loop_counts : forall k i n (c : Context) b c',
  attempt_loop E k i n c = Some (b, c') ->
  exists new, trace c' = trace c ++ new /\
    forall j, (attempts_of j new <= if (i =? j)%nat then k else 0)%nat.
Proof.
  induction k as [|k IH]; intros i n c b c' H.
  - inversion H; subst. exists []. rewrite app_nil_r. split; [reflexivity|].
    intros j. cbn. destruct (i =? j)%nat; lia.
  - cbn [attempt_loop] in H.
    destruct (isSampling E (world c)) as [[|] w].
    + destruct (attempt E i n _ (with_world w c)) as [[accepted c1]|] eqn:Ha; [|discriminate].
      apply attempt_counts in Ha. destruct Ha as (n1 & T1 & C1).
      destruct accepted.
      * inversion H; subst. exists n1. split; [exact T1|].
        intros j. rewrite C1. destruct (i =? j)%nat; lia.
      * apply IH in H. destruct H as (n2 & T2 & C2).
        exists (n1 ++ n2). split; [rewrite T2, T1; cbn; now rewrite app_assoc|].
        intros j. rewrite attempts_of_app, C1. specialize (C2 j).
        destruct (i =? j)%nat; lia.
    + inversion H; subst. exists []. cbn. rewrite app_nil_r. split; [reflexivity|].
      intros j. cbn. destruct (i =? j)%nat; lia.
Qed.

Lemma attempt_loop_stops k i n (c : Context) w :
  isSampling E (world c) = (false, w) ->
  attempt_loop E (S k) i n c = Some (false, with_world w c).
Proof. intros H. cbn [attempt_loop]. now rewrite H. Qed.

Lemma sample_region_counts i r b (c : Context) b' c' :
  sample_region E i r b c = Some (b', c') ->
  exists new, trace c' = trace c ++ new /\
    forall j, (attempts_of j new <= if (i =? j)%nat then 2 else 0)%nat.
Proof.
  unfold sample_region. intros H.
  destruct (prepare_region E i r c) as [c1|] eqn:Hp; [|discriminate].
  destruct (prepare_region_stable i r c c1 Hp) as (_ & T & _).
  destruct (samplingAttemptsCount E (world c1)) as [n w].
  destruct (hasSolution E w) as [[|] w'].
  - inversion H; subst. exists []. cbn. rewrite app_nil_r. split; [exact T|].
    intros j. cbn. destruct (i =? j)%nat; lia.
  - destruct (attempt_loop E _ i _ (with_world w' c1)) as [[accepted c2]|] eqn:Hl; [|discriminate].
    inversion H; subst. apply attempt_loop_counts in Hl.
    destruct Hl as (new & Tl & Cl). exists new. split.
    + rewrite Tl. cbn. now rewrite T.
    + exact Cl.
Qed.

Lemma region_loop_counts : forall regions i b (c : Context) b' c',
  region_loop E regions i b c = Some (b', c') ->
  exists new, trace c' = trace c ++ new /\
    forall j, (attempts_of j new <= if (i <=? j)%nat then 2 else 0)%nat.
Proof.
  induction regions as [|r rest IH]; intros i b c b' c' H; simpl in H.
  - inversion H; subst. exists []. rewrite app_nil_r. split; [reflexivity|].
    intros j. cbn. destruct (i <=? j)%nat; lia.
  - destruct (sample_region E i r b c) as [[b1 c1]|] eqn:Hs; [|discriminate].
    apply sample_region_counts in Hs. destruct Hs as (n1 & T1 & C1).
    apply IH in H. destruct H as (n2 & T2 & C2).
    exists (n1 ++ n2). split; [now rewrite T2, T1, app_assoc|].
    intros j. rewrite attempts_of_app. specialize (C1 j). specialize (C2 j).
    revert C1 C2.
    destruct (Nat.eqb_spec i j), (Nat.leb_spec (S i) j), (Nat.leb_spec i j);
      intros C1 C2; lia.
Qed.

(** *** Over the life of the object *)

Lemma construct_invariant initial constrs wsgrs :
  well_formed (constructed initial constrs wsgrs) = true ->
  lifetime_invariant (constructed initial constrs wsgrs) [].
Proof.
  intros Hwf. split; [exact Hwf|]. cbn. repeat split; auto; lia.
Qed.

Lemma lifetime_keeps_invariant : forall calls (s : Sampler) tr s' tr',
  lifetime_invariant s tr ->
  lifetime E calls s tr = Some (s', tr') ->
  lifetime_invariant s' tr'.
Proof.
  induction calls as [|call rest IH]; intros s tr s' tr' Hinv Hl.
  - inversion Hl; subst. exact Hinv.
  - destruct call as [ss w|st|]; cbn [lifetime] in Hl.
    + destruct Hinv as (Hwf & (Hv & Hvc & Hvl) & (Hw1 & Hw2)).
      set (c := {| this := s; sampled_states := ss; world := w; trace := tr |}) in *.
      destruct (sampleUsingConstraintSampler E c) as [[b c']|] eqn:Hcall;
        [|discriminate].
      apply (IH _ _ _ _) with (2 := Hl).
      destruct (call_verbose_step c b c' Hcall) as (nv & Tv & Fv & Vv).
      destruct (call_warned_step c b c' Hcall) as (nw & Tw & Aw & Bw).
      cbn in Tv, Tw, Vv, Aw, Bw.
      destruct (Vv Hv) as [Hv' Hvc'].
      split; [exact (well_formed_stable c c' (call_stable c b c' Hcall) Hwf)|]. split.
      * split; [exact Hv'|]. split.
        -- rewrite Tv, verbose_count_app. lia.
        -- rewrite Tv. apply Forall_app; auto.
      * rewrite Tw, warned_count_app.
        destruct (warned_invalid_samples_ s) eqn:Hs.
        -- destruct (Aw eq_refl) as [-> Hw']. split; [lia|auto].
        -- assert (warned_count tr = 0%nat) as ->.
           { destruct (warned_count tr) as [|[|k]]; [reflexivity| |lia].
             discriminate (Hw2 eq_refl). }
           destruct (Bw eq_refl) as [[-> Hw']|[-> Hw']]; cbn; split; auto; lia.
    + apply (IH _ _ _ _) with (2 := Hl). exact Hinv.
    + apply (IH _ _ _ _) with (2 := Hl).
      destruct Hinv as (_ & Hv & Hw). split; [reflexivity|]. split; assumption.
Qed.

Lemma lifetime_defined : forall calls (s : Sampler) tr,
  well_formed s = true -> resolves E ->
  exists s' tr', lifetime E calls s tr = Some (s', tr').
Proof.
  induction calls as [|call rest IH]; intros s tr Hwf Hres; cbn [lifetime].
  - eauto.
  - destruct call as [ss w|st|].
    + destruct (call_defined
                  {| this := s; sampled_states := ss; world := w; trace := tr |}
                  Hwf (or_intror Hres)) as (b & c' & -> & Hwf').
      apply IH; assumption.
    + apply IH; assumption.
    + apply IH; [reflexivity|assumption].
Qed.

(* ------------------------------------------------------------------ *)
(** ** The claims on the sampling call *)

(** C5, as amended. Over the life of a sampler built by the constructor,
    whatever calls are made on it, [verbose] is true only in an iteration
    whose index is at least [max_attempts / 2] (so not in the first
    [max_attempts / 2] iterations), only when [getStateCount()] read zero in
    that iteration, and in at most one iteration in all. This holds of every
    sequence of calls that returns, and the calls return when the manager
    always finds a constraint sampler. *)
Theorem verbose_only_late_and_once calls (initial : RobotState) constrs wsgrs :
  well_formed (constructed initial constrs wsgrs) = true ->
  (forall s tr,
     lifetime E calls (constructed initial constrs wsgrs) [] = Some (s, tr) ->
     Forall verbose_late tr /\ (verbose_count tr <= 1)%nat) /\
  (resolves E ->
   exists s tr, lifetime E calls (constructed initial constrs wsgrs) [] = Some (s, tr)).
Proof.
  intros Hwf. split.
  - intros s tr Hl.
    destruct (lifetime_keeps_invariant calls _ [] s tr (construct_invariant _ _ _ Hwf) Hl)
      as (_ & (Hv & Hc & Hf) & _).
    split; [exact Hf|lia].
  - intros Hres. exact (lifetime_defined calls _ [] Hwf Hres).
Qed.

(** C6. After [clear()] the weighted goal queue, the regions, the
    constraints and the SE3 samplers and spaces are empty, and a following
    [sampleUsingConstraintSampler] returns false having changed nothing,
    asked the world nothing and left no event: its region loop has no
    iteration in which to read a region or a constraint. *)
Theorem clear_leaves_nothing_to_sample (s : Sampler) (ss : list State) (w : W) tr :
  goals_priority_queue_ (clear s) = [] /\
  workspace_goal_regions_ (clear s) = [] /\
  constrs_ (clear s) = [] /\
  se3_samplers_ (clear s) = [] /\
  se3_spaces_ (clear s) = [] /\
  sampleUsingConstraintSampler E
    {| this := clear s; sampled_states := ss; world := w; trace := tr |} =
  Some (false, {| this := clear s; sampled_states := ss; world := w; trace := tr |}).
Proof. repeat split. Qed.

(** C7. A call makes at most [max_attempts] = 2 iterations of the attempt
    loop for each region, and an attempt loop that finds [isSampling()]
    false at its test stops there, leaving everything but the world as it
    was. The bound holds of every call that returns, and a call returns on
    an object that holds a constraint message for each region and has a
    sampler to attempt with. *)
Theorem attempts_per_region_bounded (c : Context) :
  well_formed (this c) = true ->
  sampler_available E (this c) ->
  (exists b c' new,
     sampleUsingConstraintSampler E c = Some (b, c') /\
     trace c' = trace c ++ new /\
     forall i, (Z.of_nat (attempts_of i new) <= max_attempts)%Z) /\
  (forall k i n (c0 : Context) w,
     isSampling E (world c0) = (false, w) ->
     attempt_loop E (S k) i n c0 = Some (false, with_world w c0)) /\
  (forall (c0 : Context) b c',
     sampleUsingConstraintSampler E c0 = Some (b, c') ->
     exists new,
       trace c' = trace c0 ++ new /\
       forall i, (Z.of_nat (attempts_of i new) <= max_attempts)%Z).
Proof.
  intros Hwf Hav.
  assert (Hbound : forall (c0 : Context) b c',
             sampleUsingConstraintSampler E c0 = Some (b, c') ->
             exists new,
               trace c' = trace c0 ++ new /\
               forall i, (Z.of_nat (attempts_of i new) <= max_attempts)%Z).
  { intros c0 b c' Hcall.
    destruct (region_loop_counts _ _ _ _ _ _ Hcall) as (new & T & C).
    exists new. split; [exact T|].
    intros i. specialize (C i). unfold max_attempts.
    destruct (0 <=? i)%nat; lia. }
  split; [|split].
  - destruct (call_defined c Hwf Hav) as (b & c' & Hcall & _).
    destruct (Hbound c b c' Hcall) as (new & T & C).
    exists b, c', new. auto.
  - intros k i n c0 w. apply attempt_loop_stops.
  - exact Hbound.
Qed.

(** C8, as amended. An iteration whose projection succeeds and whose
    constraint check fails increments [invalid_sampled_constraints_]
    (modulo 2^32), sets [warned_invalid_samples_] if it was not set and the
    counter has reached [(attempts_so_far * 8) / 10] in unsigned arithmetic,
    and does not leave the attempt loop; over the life of a sampler the flag
    is set at most once, in every sequence of calls that returns. *)
Theorem invalid_sample_counted_and_warned_once
    calls (initial : RobotState) constrs wsgrs
    i n a (c : Context) count w1 verbose s1 sampler ws w2 w3 :
  well_formed (constructed initial constrs wsgrs) = true ->
  getStateCount E (world c) = (count, w1) ->
  choose_verbose count a (this c) = (verbose, s1) ->
  constraint_sampler_ s1 = Some sampler ->
  project E sampler verbose (work_state_ s1) w1 = ((true, ws), w2) ->
  decide E (kinematic_constraint_set_ s1) (update E ws) verbose w2 = (false, w3) ->
  (exists c',
     attempt E i n a c = Some (false, c') /\
     invalid_sampled_constraints_ (this c') =
       uint32 (invalid_sampled_constraints_ (this c) + 1) /\
     warned_invalid_samples_ (this c') =
       warned_invalid_samples_ (this c) ||
       (uint32 (n * 8) / 10 <=? uint32 (invalid_sampled_constraints_ (this c) + 1))%Z) /\
  (forall s tr,
     lifetime E calls (constructed initial constrs wsgrs) [] = Some (s, tr) ->
     (warned_count tr <= 1)%nat) /\
  (resolves E ->
   exists s tr, lifetime E calls (constructed initial constrs wsgrs) [] = Some (s, tr)).
Proof.
  intros Hwf Hcount Hverbose Hsampler Hproject Hdecide. split; [|split].
  - unfold attempt. rewrite Hcount, Hverbose, Hsampler, Hproject. cbn.
    rewrite Hdecide.
    assert (Hi : invalid_sampled_constraints_ s1 = invalid_sampled_constraints_ (this c)
                 /\ warned_invalid_samples_ s1 = warned_invalid_samples_ (this c)).
    { destruct (choose_verbose_cases _ _ _ _ _ Hverbose)
        as [[_ ->]|(_ & _ & _ & _ & ->)]; split; reflexivity. }
    destruct Hi as [Hi Hw].
    unfold count_invalid. cbn. rewrite Hi, Hw.
    destruct (warned_invalid_samples_ (this c)); cbn.
    + eexists; repeat split.
    + destruct (_ <=? _)%Z; eexists; repeat split.
  - intros s tr Hl.
    destruct (lifetime_keeps_invariant calls _ [] s tr (construct_invariant _ _ _ Hwf) Hl)
      as (_ & _ & (Hle & _)).
    exact Hle.
  - intros Hres. exact (lifetime_defined calls _ [] Hwf Hres).
Qed.


(* ================================================================== *)
(** * Further properties of the code *)

(** ** distanceGoal *)

(** X1. A configuration whose gripper position fails the x/y test of every
    region gets the distance of the base class, whatever the constraints. *)
Theorem distanceGoal_outside_every_region (s : Sampler) (st : State) :
  (forall r, In r (workspace_goal_regions_ s) ->
             position_test r (translation (gripper_link_transform E st)) = false) ->
  distanceGoal E s st = Some (base_distanceGoal E st).
Proof.
  intros Hout. unfold distanceGoal.
  now rewrite (inside_goal_region_outside (constrs_ s) (workspace_goal_regions_ s) 0 _ Hout).
Qed.

Lemma inside_goal_region_defined constrs regions : forall i ee,
  (i + length regions <= length constrs)%nat ->
  forallb constraint_ok constrs = true ->
  exists b, inside_goal_region E constrs i regions ee = Some b.
Proof.
  induction regions as [|r rest IH]; intros i ee Hlen Hok; simpl in *; [eauto|].
  destruct (region_test_defined constrs i r ee) as [b ->]; [lia|assumption|].
  destruct b; [eauto|]. apply IH; auto. lia.
Qed.

Lemma well_formed_constrs (s : Sampler) :
  well_formed s = true ->
  (length (workspace_goal_regions_ s) <= length (constrs_ s))%nat /\
  forallb constraint_ok (constrs_ s) = true.
Proof.
  unfold well_formed. intros H.
  apply andb_true_iff in H as [H Hok].
  apply andb_true_iff in H as [_ H3]. apply Nat.leb_le in H3. auto.
Qed.

(** X2. On an object that holds a constraint message for each region,
    [distanceGoal] indexes nothing out of range, and its value is 0 or the
    distance of the base class. *)
Theorem distanceGoal_zero_or_base (s : Sampler) (st : State) :
  well_formed s = true ->
  distanceGoal E s st = Some 0 \/
  distanceGoal E s st = Some (base_distanceGoal E st).
Proof.
  intros Hwf. destruct (well_formed_constrs s Hwf) as [Hlen Hok].
  unfold distanceGoal.
  destruct (inside_goal_region_defined (constrs_ s) (workspace_goal_regions_ s) 0
              (gripper_link_transform E st)) as [[|] ->]; auto.
Qed.

Lemma inside_goal_region_found constrs regions : forall i k r ee,
  (i + length regions <= length constrs)%nat ->
  forallb constraint_ok constrs = true ->
  nth_error regions k = Some r ->
  region_test E constrs (i + k) r ee = Some true ->
  inside_goal_region E constrs i regions ee = Some true.
Proof.
  induction regions as [|r0 rest IH]; intros i k r ee Hlen Hok Hk Ht.
  - destruct k; discriminate.
  - simpl in Hlen. simpl. destruct k as [|k]; simpl in Hk.
    + inversion Hk; subst. rewrite Nat.add_0_r in Ht. now rewrite Ht.
    + destruct (region_test_defined constrs i r0 ee) as [b ->]; [lia|assumption|].
      destruct b; [reflexivity|].
      apply IH with (k := k) (r := r); auto; [lia|].
      now replace (S i + k)%nat with (i + S k)%nat by lia.
Qed.

Lemma inside_goal_region_origin constrs regions : forall i ee,
  inside_goal_region E constrs i regions ee = Some true ->
  exists k r, nth_error regions k = Some r /\
              region_test E constrs (i + k) r ee = Some true.
Proof.
  induction regions as [|r0 rest IH]; intros i ee H; simpl in H; [discriminate|].
  destruct (region_test E constrs i r0 ee) as [[|]|] eqn:Ht; [| |discriminate].
  - exists 0%nat, r0. rewrite Nat.add_0_r. auto.
  - destruct (IH (S i) ee H) as (k & r & Hk & Hr).
    exists (S k), r. split; [exact Hk|].
    now replace (i + S k)%nat with (S i + k)%nat by lia.
Qed.

(** X4. On an object that holds a constraint message for each region, the
    loop of [distanceGoal] reaches a [return 0.0] exactly when the body
    reports some region as containing the pose: regions are tried in order
    and any one of them is enough. *)
Theorem inside_goal_region_iff (s : Sampler) (ee : Pose) :
  well_formed s = true ->
  (inside_goal_region E (constrs_ s) 0 (workspace_goal_regions_ s) ee = Some true <->
   exists k r, nth_error (workspace_goal_regions_ s) k = Some r /\
               region_test E (constrs_ s) k r ee = Some true).
Proof.
  intros Hwf. destruct (well_formed_constrs s Hwf) as [Hlen Hok]. split.
  - intros H. exact (inside_goal_region_origin _ _ 0%nat ee H).
  - intros (k & r & Hk & Hr).
    apply (inside_goal_region_found (constrs_ s) (workspace_goal_regions_ s) 0 k r ee);
      auto.
Qed.

(* ------------------------------------------------------------------ *)
(** ** getBetterSolution *)

(** *** The order of the sorted list *)

Lemma distance_le_spec (a b : Distance) :
  distance_le a b <->
  match a, b with
  | Finite p, Finite q => p <= q
  | _, Infinity => True
  | Infinity, Finite _ => False
  end.
Proof.
  unfold distance_le. destruct a as [p|], b as [q|]; cbn.
  - rewrite negb_false_iff. apply Qle_bool_iff.
  - tauto.
  - split; [discriminate|tauto].
  - tauto.
Qed.

Lemma distance_le_refl a : distance_le a a.
Proof. apply distance_le_spec. destruct a; [apply Qle_refl|exact I]. Qed.

Lemma distance_le_trans a b c : distance_le a b -> distance_le b c -> distance_le a c.
Proof.
  rewrite !distance_le_spec. destruct a, b, c; try tauto. apply Qle_trans.
Qed.

Lemma distance_ltb_le a b : distance_ltb a b = true -> distance_le a b.
Proof.
  intros H. apply distance_le_spec. destruct a as [p|], b as [q|]; cbn in H;
    try discriminate; [|exact I].
  apply negb_true_iff in H. apply Qlt_le_weak, Qnot_le_lt.
  intros Hle. apply Qle_bool_iff in Hle. congruence.
Qed.

Lemma tuple_le_spec (a b : Distance * Vertex) :
  tuple_le a b <->
  distance_le (fst a) (fst b) /\
  (~ distance_le (fst b) (fst a) \/ (snd a <= snd b)%nat).
Proof.
  unfold tuple_le, tuple_ltb, distance_le.
  rewrite orb_false_iff, andb_false_iff, negb_false_iff, Nat.ltb_ge.
  destruct (distance_ltb (fst a) (fst b)); intuition congruence.
Qed.

Lemma tuple_le_trans a b c : tuple_le a b -> tuple_le b c -> tuple_le a c.
Proof.
  rewrite !tuple_le_spec. intros [H1 H2] [H3 H4]. split.
  - eapply distance_le_trans; eauto.
  - destruct H2 as [H2|H2].
    + left. intros H. apply H2. eapply distance_le_trans; eauto.
    + destruct H4 as [H4|H4].
      * left. intros H. apply H4. eapply distance_le_trans; eauto.
      * right. lia.
Qed.

Lemma tuple_ltb_le a b : tuple_ltb a b = true -> tuple_le a b.
Proof.
  intros H. apply tuple_le_spec. unfold tuple_ltb in H.
  apply orb_true_iff in H as [H|H].
  - split; [now apply distance_ltb_le|]. left. unfold distance_le. congruence.
  - apply andb_true_iff in H as [H1 H2]. apply negb_true_iff in H1.
    apply Nat.ltb_lt in H2. split; [exact H1|]. right. lia.
Qed.

Lemma sort_insert_permutation e l : Permutation (sort_insert e l) (e :: l).
Proof.
  induction l as [|h t IH]; cbn; [reflexivity|].
  destruct (tuple_ltb h e); [|reflexivity].
  rewrite IH. apply perm_swap.
Qed.

Lemma sort_insert_sorted e l :
  StronglySorted tuple_le l -> StronglySorted tuple_le (sort_insert e l).
Proof.
  induction l as [|h t IH]; intros Hs; cbn.
  - repeat constructor.
  - inversion Hs as [|? ? Ht Hh]; subst.
    destruct (tuple_ltb h e) eqn:Hlt.
    + constructor; [now apply IH|].
      apply Forall_forall. intros x' Hx'.
      apply (Permutation_in _ (sort_insert_permutation e t)) in Hx'.
      destruct Hx' as [<-|Hx']; [now apply tuple_ltb_le|].
      rewrite Forall_forall in Hh. now apply Hh.
    + constructor; [exact Hs|]. constructor; [exact Hlt|].
      apply Forall_forall. intros x' Hx'. rewrite Forall_forall in Hh.
      apply tuple_le_trans with h; [exact Hlt|now apply Hh].
Qed.

Lemma sort_permutation (l : list (Distance * Vertex)) : Permutation (sort l) l.
Proof.
  induction l as [|h t IH]; cbn; [constructor|].
  rewrite sort_insert_permutation. now constructor.
Qed.

Lemma sort_sorted (l : list (Distance * Vertex)) : StronglySorted tuple_le (sort l).
Proof.
  induction l as [|h t IH]; cbn; [constructor|]. now apply sort_insert_sorted.
Qed.

(** X5. [lst.sort()] rearranges the list without losing or adding a tuple,
    and leaves every tuple not after any later one in the order of
    [operator<] (distance first, vertex second). *)
Theorem sort_permutation_sorted (l : list (Distance * Vertex)) :
  Permutation (sort l) l /\ StronglySorted tuple_le (sort l).
Proof.
  induction l as [|h t [IHp IHs]]; cbn.
  - split; constructor.
  - split.
    + rewrite sort_insert_permutation. now constructor.
    + now apply sort_insert_sorted.
Qed.

(** *** The score of a vertex *)

Lemma region_distance_bounds regions t : forall d,
  let d' := region_distance E regions t d in
  distance_le d' d /\
  (forall r, In r regions -> distance_le d' (Finite (gr_distance E r t))) /\
  (d' = d \/ exists r, In r regions /\ d' = Finite (gr_distance E r t)).
Proof.
  induction regions as [|r0 rest IH]; intros d; cbn [region_distance]; cbv zeta.
  - split; [apply distance_le_refl|]. split; [intros r []|now left].
  - set (d1 := if distance_ltb (Finite (gr_distance E r0 t)) d
               then Finite (gr_distance E r0 t) else d).
    assert (H1 : distance_le d1 d /\ distance_le d1 (Finite (gr_distance E r0 t))).
    { unfold d1. destruct (distance_ltb _ d) eqn:Hlt.
      - split; [now apply distance_ltb_le|apply distance_le_refl].
      - split; [apply distance_le_refl|exact Hlt]. }
    destruct H1 as [H1 H2]. destruct (IH d1) as (A & B & C). cbv zeta in A, B, C.
    split; [|split].
    + eapply distance_le_trans; eauto.
    + intros r [<-|Hr]; [eapply distance_le_trans; eauto|now apply B].
    + destruct C as [C|(r & Hr & C)].
      * rewrite C. unfold d1. destruct (distance_ltb _ d); [|now left].
        right. exists r0. split; [now left|reflexivity].
      * right. exists r. split; [now right|exact C].
Qed.

(** X6. With at least one region, the score of a position is the distance
    to the centre of one of the regions, and no region has its centre
    nearer. *)
Theorem region_distance_is_minimum regions (t : Point) :
  regions <> [] ->
  exists r,
    In r regions /\
    region_distance E regions t Infinity = Finite (gr_distance E r t) /\
    forall r', In r' regions -> gr_distance E r t <= gr_distance E r' t.
Proof.
  intros Hne. destruct (region_distance_bounds regions t Infinity) as (_ & B & C).
  destruct C as [C|(r & Hr & C)].
  - destruct regions as [|r0 rest]; [contradiction|].
    specialize (B r0 (or_introl eq_refl)). rewrite C in B.
    apply distance_le_spec in B. destruct B.
  - exists r. repeat split; auto. intros r' Hr'.
    specialize (B r' Hr'). rewrite C in B. now apply distance_le_spec in B.
Qed.

(** *** Start vertex and goal vertex *)

Lemma scan_vertices_found (s : Sampler) (g : Roadmap State) st : forall vs lst0 lst sv,
  scan_vertices E s g st vs lst0 = (lst, Some sv) ->
  exists pre post,
    vs = pre ++ sv :: post /\
    equalStates E st (stateProperty_ g sv) = true /\
    (forall v, In v pre -> equalStates E st (stateProperty_ g v) = false) /\
    lst = lst0 ++ map (scored E s g) (pre ++ [sv]).
Proof.
  induction vs as [|v rest IH]; intros lst0 lst sv H; cbn in H; [discriminate|].
  destruct (equalStates E st (stateProperty_ g v)) eqn:Heq.
  - inversion H; subst. exists [], rest. repeat split; auto. intros ? [].
  - apply IH in H. destruct H as (pre & post & -> & Hsv & Hpre & ->).
    exists (v :: pre), post. repeat split; auto.
    + intros v' [<-|Hv']; auto.
    + rewrite <- app_assoc. reflexivity.
Qed.

Lemma scan_vertices_missing (s : Sampler) (g : Roadmap State) st : forall vs lst0,
  (forall v, In v vs -> equalStates E st (stateProperty_ g v) = false) ->
  snd (scan_vertices E s g st vs lst0) = None.
Proof.
  induction vs as [|v rest IH]; intros lst0 Hno; cbn; [reflexivity|].
  rewrite (Hno v (or_introl eq_refl)). apply IH. intros v' Hv'. apply Hno. now right.
Qed.

Lemma sorted_candidates_scan (s : Sampler) (g : Roadmap State) st sv lst :
  sorted_candidates E s g st = Some (sv, lst) ->
  exists pre post,
    vertices g = pre ++ sv :: post /\
    equalStates E st (stateProperty_ g sv) = true /\
    (forall v, In v pre -> equalStates E st (stateProperty_ g v) = false) /\
    lst = sort (map (scored E s g) (pre ++ [sv])).
Proof.
  unfold sorted_candidates. intros H.
  destruct (scan_vertices E s g st (vertices g) []) as [l [v|]] eqn:Hscan;
    [|discriminate].
  inversion H; subst.
  destruct (scan_vertices_found s g st _ _ _ _ Hscan) as (pre & post & Hv & He & Hp & Hl).
  exists pre, post. rewrite Hl. auto.
Qed.

(** X7. When the start vertex is found it is the first vertex, in the order
    of the roadmap, whose configuration equals the end of the path; the list
    that is walked holds the tuples of the vertices up to and including it,
    sorted. *)
Theorem sorted_candidates_start_vertex (s : Sampler) (g : Roadmap State) st sv lst :
  sorted_candidates E s g st = Some (sv, lst) ->
  exists pre post,
    vertices g = pre ++ sv :: post /\
    equalStates E st (stateProperty_ g sv) = true /\
    (forall v, In v pre -> equalStates E st (stateProperty_ g v) = false) /\
    Permutation lst (map (scored E s g) (pre ++ [sv])) /\
    StronglySorted tuple_le lst.
Proof.
  intros H.
  destruct (sorted_candidates_scan s g st sv lst H) as (pre & post & Hv & He & Hp & ->).
  exists pre, post. split; [exact Hv|]. split; [exact He|]. split; [exact Hp|]. split.
  - apply sort_permutation.
  - apply sort_sorted.
Qed.

Lemma goal_vertex_first (g : Roadmap State) sv : forall lst,
  StronglySorted tuple_le lst ->
  (exists e, In e lst /\ sameComponent g sv (snd e) = true) ->
  exists e,
    In e lst /\ goal_vertex g sv lst = Some (snd e) /\
    sameComponent g sv (snd e) = true /\
    forall e', In e' lst -> sameComponent g sv (snd e') = true -> tuple_le e e'.
Proof.
  induction lst as [|h t IH]; intros Hs (e0 & Hin & Hc); [destruct Hin|].
  inversion Hs as [|? ? Ht Hh]; subst. cbn.
  destruct (sameComponent g sv (snd h)) eqn:Hh'.
  - exists h. repeat split; auto.
    intros e' [<-|He'] _.
    + apply tuple_le_spec. split; [apply distance_le_refl|right; lia].
    + rewrite Forall_forall in Hh. now apply Hh.
  - destruct Hin as [<-|Hin]; [congruence|].
    destruct (IH Ht (ex_intro _ e0 (conj Hin Hc))) as (e & He & Hg & Hce & Hmin).
    exists e. repeat split; auto.
    intros e' [<-|He'] Hc'; [congruence|]. now apply Hmin.
Qed.

(** X8. If the connectivity test puts the start vertex in its own component,
    the walk of the sorted list finds a goal vertex: one of the listed
    vertices, in the component of the start vertex, whose tuple is not after
    that of the start vertex nor after that of any other listed vertex of
    the component. *)
Theorem goal_vertex_not_worse_than_start (s : Sampler) (g : Roadmap State) st sv lst :
  sameComponent g sv sv = true ->
  sorted_candidates E s g st = Some (sv, lst) ->
  exists v,
    goal_vertex g sv lst = Some v /\
    In (scored E s g v) lst /\
    sameComponent g sv v = true /\
    tuple_le (scored E s g v) (scored E s g sv) /\
    forall e, In e lst -> sameComponent g sv (snd e) = true ->
              tuple_le (scored E s g v) e.
Proof.
  intros Hrefl Hc.
  destruct (sorted_candidates_scan s g st sv lst Hc) as (pre & post & _ & _ & _ & Hl).
  assert (Hperm : Permutation lst (map (scored E s g) (pre ++ [sv])))
    by (rewrite Hl; apply sort_permutation).
  assert (Hsorted : StronglySorted tuple_le lst)
    by (rewrite Hl; apply sort_sorted).
  assert (Hsv : In (scored E s g sv) lst).
  { apply (Permutation_in _ (Permutation_sym Hperm)).
    apply in_map, in_or_app. right. now left. }
  destruct (goal_vertex_first g sv lst Hsorted) as (e & He & Hg & Hce & Hmin).
  { exists (scored E s g sv). auto. }
  assert (Heq : e = scored E s g (snd e)).
  { apply (Permutation_in _ Hperm) in He. apply in_map_iff in He.
    destruct He as (v & <- & _). reflexivity. }
  exists (snd e). rewrite <- Heq. repeat split; auto.
Qed.

(** X9. On a path that is not empty [getBetterSolution] only appends: the
    result is the path itself, or the path followed by all but the first
    state of the roadmap path from the start vertex to a vertex of its
    component with another configuration. *)
Theorem getBetterSolution_appends (s : Sampler) (g : Roadmap State) path :
  path <> [] ->
  exists suffix,
    getBetterSolution E s g path = Some (path ++ suffix) /\
    (suffix = [] \/
     exists sv v,
       In sv (vertices g) /\ sameComponent g sv v = true /\
       equalStates E (stateProperty_ g sv) (stateProperty_ g v) = false /\
       suffix = tl (constructSolution g sv v)).
Proof.
  intros Hne. unfold getBetterSolution.
  destruct (rev path) as [|st rest] eqn:Hrev.
  { apply (f_equal (@rev State)) in Hrev. rewrite rev_involutive in Hrev.
    contradiction. }
  destruct (sorted_candidates E s g st) as [[sv lst]|] eqn:Hc.
  - unfold roadmap_internal_path.
    destruct (goal_vertex g sv lst) as [v|] eqn:Hg.
    + destruct (equalStates E (stateProperty_ g sv) (stateProperty_ g v)) eqn:He; cbn.
      * exists []. rewrite app_nil_r. auto.
      * exists (tl (constructSolution g sv v)). split; [reflexivity|]. right.
        exists sv, v. repeat split; auto.
        -- destruct (sorted_candidates_scan s g st sv lst Hc)
             as (pre & post & -> & _). apply in_or_app. right. now left.
        -- clear - Hg. induction lst as [|h t IH]; cbn in Hg; [discriminate|].
           destruct (sameComponent g sv (snd h)) eqn:Hh; [|auto].
           inversion Hg; subst. exact Hh.
    + exists []. rewrite app_nil_r. auto.
  - exists []. rewrite app_nil_r. auto.
Qed.

(** X10. When no vertex of the roadmap has the configuration at the end of
    the path, the path is returned as it was. *)
Theorem getBetterSolution_unknown_end (s : Sampler) (g : Roadmap State) front st :
  (forall v, In v (vertices g) -> equalStates E st (stateProperty_ g v) = false) ->
  getBetterSolution E s g (front ++ [st]) = Some (front ++ [st]).
Proof.
  intros Hno. unfold getBetterSolution. rewrite rev_app_distr. cbn.
  unfold sorted_candidates.
  pose proof (scan_vertices_missing s g st (vertices g) [] Hno) as Hscan.
  destruct (scan_vertices E s g st (vertices g) []) as [l [v|]]; cbn in Hscan;
    [discriminate|reflexivity].
Qed.

(* ------------------------------------------------------------------ *)
(** ** sampleUsingConstraintSampler *)

(** X11. On an object that holds a constraint message for each region and
    has a sampler to attempt with (the default sampler is set, or the
    manager always finds a constraint sampler), the call returns and leaves
    such an object: the regions, the SE3 spaces and samplers are as before
    and [constrs_] has kept its size. *)
Theorem call_keeps_well_formed (c : Context) :
  well_formed (this c) = true ->
  sampler_available E (this c) ->
  exists b c',
    sampleUsingConstraintSampler E c = Some (b, c') /\
    well_formed (this c') = true /\
    workspace_goal_regions_ (this c') = workspace_goal_regions_ (this c) /\
    se3_spaces_ (this c') = se3_spaces_ (this c) /\
    se3_samplers_ (this c') = se3_samplers_ (this c) /\
    length (constrs_ (this c')) = length (constrs_ (this c)).
Proof.
  intros Hwf Hav. destruct (call_defined c Hwf Hav) as (b & c' & Hcall & Hwf').
  destruct (call_stable c b c' Hcall) as (A & B & C & D & _).
  exists b, c'. repeat split; assumption.
Qed.

(** *** The goals a call produces *)

Lemma goals_step_refl (c : Context) : goals_step c c.
Proof.
  exists [], []. rewrite app_nil_r. repeat split; auto; intros st [].
Qed.

Lemma goals_step_trans (c1 c2 c3 : Context) :
  goals_step c1 c2 -> goals_step c2 c3 -> goals_step c1 c3.
Proof.
  intros (a1 & n1 & Q1 & S1 & W1 & I1) (a2 & n2 & Q2 & S2 & W2 & I2).
  exists (a2 ++ a1), (n1 ++ n2). repeat split.
  - now rewrite Q2, Q1, app_assoc.
  - now rewrite S2, S1, app_assoc.
  - apply Forall_app; auto.
  - intros st Hst. apply in_or_app. apply in_app_or in Hst as [Hst|Hst]; auto.
Qed.

Lemma attempt_goals_step i n a (c : Context) b c' :
  attempt E i n a c = Some (b, c') -> goals_step c c'.
Proof.
  intros H. attempt_cases H;
    solve [ exact (goals_step_refl _)
          | exists [], []; cbn; rewrite app_nil_r; repeat split; auto; intros st []
          | eexists [_], [_]; cbn; repeat split; auto;
            intros st [<-|[]]; left; reflexivity
          | eexists [_], []; cbn; rewrite app_nil_r; repeat split; auto;
            intros st [] ].
Qed.

Lemma call_goals_step (c : Context) b c' :
  sampleUsingConstraintSampler E c = Some (b, c') -> goals_step c c'.
Proof.
  apply lift_call.
  - apply goals_step_refl.
  - apply goals_step_trans.
  - intros c0 w. exact (goals_step_refl c0).
  - intros i r c0 c0' H.
    destruct (prepare_region_stable i r c0 c0' H) as (_ & _ & S & Q & _).
    exists [], []. rewrite app_nil_r, S, Q. repeat split; auto; intros st [].
  - intros i n a c0 b0 c0' _. apply attempt_goals_step.
Qed.

Lemma attempt_one_goal i n a (c : Context) b c' :
  attempt E i n a c = Some (b, c') ->
  (length (goals_priority_queue_ (this c')) <=
   S (length (goals_priority_queue_ (this c))))%nat.
Proof. intros H. attempt_cases H; cbn; lia. Qed.

Lemma attempt_loop_one_goal : forall k i n (c : Context) b c',
  attempt_loop E k i n c = Some (b, c') ->
  (length (goals_priority_queue_ (this c')) <=
   S (length (goals_priority_queue_ (this c))))%nat.
Proof.
  induction k as [|k IH]; intros i n c b c' H.
  - inversion H; subst. lia.
  - cbn [attempt_loop] in H.
    destruct (isSampling E (world c)) as [[|] w].
    + destruct (attempt E i n _ (with_world w c)) as [[accepted c1]|] eqn:Ha; [|discriminate].
      destruct accepted.
      * inversion H; subst. exact (attempt_one_goal _ _ _ _ _ _ Ha).
      * pose proof (attempt_queue_step _ _ _ _ _ _ Ha) as (added & Hq & Hb).
        cbn in Hq.
        destruct added as [|g added];
          [|exfalso; assert (false = true) by (apply Hb; discriminate); discriminate].
        apply IH in H. rewrite Hq in H. exact H.
    + inversion H; subst. cbn. lia.
Qed.

Lemma sample_region_one_goal i r b (c : Context) b' c' :
  sample_region E i r b c = Some (b', c') ->
  (length (goals_priority_queue_ (this c')) <=
   S (length (goals_priority_queue_ (this c))))%nat.
Proof.
  unfold sample_region. intros H.
  destruct (prepare_region E i r c) as [c1|] eqn:Hp; [|discriminate].
  destruct (prepare_region_stable i r c c1 Hp) as (_ & _ & _ & Q & _).
  destruct (samplingAttemptsCount E (world c1)) as [n w].
  destruct (hasSolution E w) as [[|] w'].
  - inversion H; subst. cbn. rewrite Q. lia.
  - destruct (attempt_loop E _ i _ (with_world w' c1)) as [[accepted c2]|] eqn:Hl; [|discriminate].
    inversion H; subst. apply attempt_loop_one_goal in Hl. cbn in Hl.
    rewrite Q in Hl. exact Hl.
Qed.

Lemma region_loop_goals : forall regions i b (c : Context) b' c',
  region_loop E regions i b c = Some (b', c') ->
  (length (goals_priority_queue_ (this c')) <=
   length regions + length (goals_priority_queue_ (this c)))%nat.
Proof.
  induction regions as [|r rest IH]; intros i b c b' c' H; simpl in H.
  - inversion H; subst. cbn. lia.
  - destruct (sample_region E i r b c) as [[b1 c1]|] eqn:Hs; [|discriminate].
    apply sample_region_one_goal in Hs. apply IH in H. cbn. lia.
Qed.

(** X12. A call inserts at most one goal per region, each at weight 1, at
    the front of the queue; the caller's vector keeps what it held and every
    state appended to it is one of the goals inserted by this call. *)
Theorem call_goals (c : Context) b c' :
  sampleUsingConstraintSampler E c = Some (b, c') ->
  exists added new,
    goals_priority_queue_ (this c') = added ++ goals_priority_queue_ (this c) /\
    sampled_states c' = sampled_states c ++ new /\
    (length added <= length (workspace_goal_regions_ (this c)))%nat /\
    Forall (fun g => weight_ g = 1) added /\
    (forall st, In st new -> In {| state_ := st; weight_ := 1 |} added).
Proof.
  intros Hcall.
  destruct (call_goals_step c b c' Hcall) as (added & new & Q & S & Wt & I).
  exists added, new. repeat split; auto.
  pose proof (region_loop_goals _ _ _ _ _ _ Hcall) as Hlen.
  rewrite Q, length_app in Hlen. lia.
Qed.

(** *** Calls that make no attempt *)

Lemma sample_region_idle i r b (c : Context) b' c' :
  (forall w, fst (hasSolution E w) = true) \/
  (forall w, fst (isSampling E w) = false) ->
  sample_region E i r b c = Some (b', c') ->
  b' = b /\ trace c' = trace c /\ sampled_states c' = sampled_states c /\
  goals_priority_queue_ (this c') = goals_priority_queue_ (this c) /\
  verbose_display_ (this c') = verbose_display_ (this c) /\
  warned_invalid_samples_ (this c') = warned_invalid_samples_ (this c).
Proof.
  intros Hidle. unfold sample_region. intros H.
  destruct (prepare_region E i r c) as [c1|] eqn:Hp; [|discriminate].
  destruct (prepare_region_stable i r c c1 Hp) as (_ & T & S & Q & V & Wn).
  destruct (samplingAttemptsCount E (world c1)) as [n w].
  destruct (hasSolution E w) as [solved w'] eqn:Hs.
  destruct solved.
  - inversion H; subst. cbn. repeat split; auto.
  - destruct Hidle as [Hsolved|Hstopped].
    + specialize (Hsolved w). rewrite Hs in Hsolved. discriminate.
    + change (Z.to_nat max_attempts) with 2%nat in H. cbn [attempt_loop] in H.
      specialize (Hstopped (world (with_world w' c1))).
      destruct (isSampling E (world (with_world w' c1))) as [sampling w2].
      cbn in Hstopped. subst sampling.
      inversion H; subst. cbn. rewrite orb_false_r. repeat split; auto.
Qed.

Lemma region_loop_idle :
  (forall w, fst (hasSolution E w) = true) \/
  (forall w, fst (isSampling E w) = false) ->
  forall regions i b0 (c : Context) b c',
  region_loop E regions i b0 c = Some (b, c') ->
  b = b0 /\ trace c' = trace c /\ sampled_states c' = sampled_states c /\
  goals_priority_queue_ (this c') = goals_priority_queue_ (this c) /\
  verbose_display_ (this c') = verbose_display_ (this c) /\
  warned_invalid_samples_ (this c') = warned_invalid_samples_ (this c).
Proof.
  intros Hidle.
  induction regions as [|r rest IH]; intros i b0 c b c' H; simpl in H.
  - inversion H; subst. repeat split; reflexivity.
  - destruct (sample_region E i r b0 c) as [[b1 c1]|] eqn:Hs; [|discriminate].
    destruct (sample_region_idle i r b0 c b1 c1 Hidle Hs) as (-> & T & Ss & Q & V & Wn).
    destruct (IH (S i) b0 c1 b c' H) as (Hb & T' & Ss' & Q' & V' & Wn').
    repeat split; congruence.
Qed.

(** X13. While the problem has a solution, or while [isSampling()] is
    false, a call makes no attempt: it returns false and leaves the queue,
    the caller's vector, the trace and the diagnostic flags as they were. *)
Theorem call_idle_when_solved_or_stopped (c : Context) b c' :
  (forall w, fst (hasSolution E w) = true) \/
  (forall w, fst (isSampling E w) = false) ->
  sampleUsingConstraintSampler E c = Some (b, c') ->
  b = false /\ trace c' = trace c /\ sampled_states c' = sampled_states c /\
  goals_priority_queue_ (this c') = goals_priority_queue_ (this c) /\
  verbose_display_ (this c') = verbose_display_ (this c) /\
  warned_invalid_samples_ (this c') = warned_invalid_samples_ (this c).
Proof.
  intros Hidle Hcall. exact (region_loop_idle Hidle _ _ _ _ _ _ Hcall).
Qed.

(** *** What a region's preparation writes *)

Lemma assign_nth_same {A} (l l' : list A) i v :
  assign l i v = Some l' -> nth_error l' i = Some v.
Proof.
  revert i l'. induction l as [|h t IH]; intros [|j] l' H; simpl in H; try discriminate.
  - inversion H; reflexivity.
  - destruct (assign t j v) as [t'|] eqn:Ht; simpl in H; inversion H; subst.
    simpl. eapply IH; eauto.
Qed.

Lemma assign_nth_other {A} (l l' : list A) i j v :
  assign l i v = Some l' -> j <> i -> nth_error l' j = nth_error l j.
Proof.
  revert i j l'. induction l as [|h t IH]; intros [|i] j l' H Hj; simpl in H;
    try discriminate.
  - inversion H; subst. destruct j; [contradiction|reflexivity].
  - destruct (assign t i v) as [t'|] eqn:Ht; simpl in H; inversion H; subst.
    destruct j; [reflexivity|]. simpl. eapply IH; eauto.
Qed.

Lemma set_position0_effect c p c' :
  set_position0 c p = Some c' ->
  position0 c' = Some p /\ orientation_constraints c' = orientation_constraints c.
Proof.
  unfold set_position0, position0. intros H.
  destruct (position_constraints c) as [|pc pcs]; [discriminate|].
  destruct (primitive_poses pc) as [|pp pps]; [discriminate|].
  inversion H; subst. cbn. auto.
Qed.

Lemma refresh_orientation_effect r state c c' :
  refresh_orientation E r state c = Some c' ->
  position_constraints c' = position_constraints c /\
  (free_value (roll r) || free_value (pitch r) || free_value (yaw r) = false -> c' = c).
Proof.
  unfold refresh_orientation. intros H.
  destruct (free_value (roll r) || free_value (pitch r) || free_value (yaw r)).
  - split; [|discriminate].
    destruct (orientation0 c) as [q|]; [|discriminate].
    unfold set_orientation0 in H.
    destruct (orientation_constraints c); [discriminate|].
    inversion H; subst. reflexivity.
  - inversion H; subst. auto.
Qed.

Lemma prepare_region_in_range i r (c c' : Context) :
  prepare_region E i r c = Some c' -> (i < length (constrs_ (this c)))%nat.
Proof.
  unfold prepare_region. intros H.
  destruct (nth_error (se3_spaces_ (this c)) i); [|discriminate].
  destruct (nth_error (se3_samplers_ (this c)) i); [|discriminate].
  destruct (nth_error (constrs_ (this c)) i) eqn:Hc; [|discriminate].
  apply nth_error_Some. congruence.
Qed.

(** X14. Preparing region [i] writes the sampled position into the first
    position constraint of [constrs_[i]], hands exactly that message to the
    constraint set, selects the sampler for it and leaves every other
    message alone; when roll, pitch and yaw are all fixed the orientation
    constraints of the message are left as they were. *)
Theorem prepare_region_effect i r (c c' : Context) :
  prepare_region E i r c = Some c' ->
  exists sampler constr constr',
    nth_error (se3_samplers_ (this c)) i = Some sampler /\
    nth_error (constrs_ (this c)) i = Some constr /\
    nth_error (constrs_ (this c')) i = Some constr' /\
    (forall j, j <> i ->
       nth_error (constrs_ (this c')) j = nth_error (constrs_ (this c)) j) /\
    kinematic_constraint_set_ (this c') = [constr'] /\
    constraint_sampler_ (this c') =
      fst (selectSampler E [constr'] (snd (se3_sampleUniform E sampler (world c)))) /\
    position0 constr' =
      Some {| p_x := getX (fst (se3_sampleUniform E sampler (world c)));
              p_y := getY (fst (se3_sampleUniform E sampler (world c)));
              p_z := getZ (fst (se3_sampleUniform E sampler (world c))) |} /\
    (free_value (roll r) || free_value (pitch r) || free_value (yaw r) = false ->
     orientation_constraints constr' = orientation_constraints constr).
Proof.
  unfold prepare_region. intros H.
  destruct (nth_error (se3_spaces_ (this c)) i); [|discriminate].
  destruct (nth_error (se3_samplers_ (this c)) i) as [sampler|]; [|discriminate].
  destruct (nth_error (constrs_ (this c)) i) as [constr|]; [|discriminate].
  destruct (se3_sampleUniform E sampler (world c)) as [state w] eqn:Hse3.
  destruct (set_position0 constr _) as [c1|] eqn:Hp; [|discriminate].
  destruct (refresh_orientation E r state c1) as [c2|] eqn:Hr; [|discriminate].
  destruct (assign (constrs_ (this c)) i c2) as [cs|] eqn:Ha; [|discriminate].
  destruct (selectSampler E [c2] w) as [sel w'] eqn:Hsel.
  inversion H; subst. cbn.
  destruct (set_position0_effect _ _ _ Hp) as [P1 O1].
  destruct (refresh_orientation_effect _ _ _ _ Hr) as [P2 F2].
  exists sampler, constr, c2. rewrite Hse3. cbn [fst snd].
  split; [reflexivity|]. split; [reflexivity|].
  split; [eapply assign_nth_same; eauto|].
  split; [intros j Hj; eapply assign_nth_other; eauto|].
  split; [reflexivity|]. split; [now rewrite Hsel|].
  split; [unfold position0 in *; rewrite P2; exact P1|].
  intros Hfixed. rewrite (F2 Hfixed). exact O1.
Qed.

(** *** Without any sampler *)

Lemma attempt_faults i n a (c : Context) :
  constraint_sampler_ (this c) = None ->
  default_sampler_ (this c) = None ->
  attempt E i n a c = None.
Proof.
  intros Hc Hd. unfold attempt.
  destruct (getStateCount E (world c)) as [count w].
  destruct (choose_verbose count a (this c)) as [verbose s] eqn:Hv.
  apply choose_verbose_cases in Hv.
  destruct Hv as [[_ ->]|(_ & _ & _ & _ & ->)]; cbn; now rewrite Hc, Hd.
Qed.

(** X15. On an object whose [default_sampler_] is null, as the constructor
    leaves it, a call with at least one region for which the manager finds
    no constraint sampler, made while the problem has no solution and
    [isSampling()] is true, dereferences the null pointer at line 490: it
    has no defined result. *)
Theorem call_without_any_sampler (c : Context) :
  well_formed (this c) = true ->
  default_sampler_ (this c) = None ->
  workspace_goal_regions_ (this c) <> [] ->
  (forall kcs w, fst (selectSampler E kcs w) = None) ->
  (forall w, fst (hasSolution E w) = false) ->
  (forall w, fst (isSampling E w) = true) ->
  sampleUsingConstraintSampler E c = None.
Proof.
  intros Hwf Hd Hne Hnone Hunsolved Hsampling.
  unfold sampleUsingConstraintSampler.
  unfold well_formed in Hwf.
  apply andb_true_iff in Hwf as [Hwf Hok].
  apply andb_true_iff in Hwf as [Hwf H3].
  apply andb_true_iff in Hwf as [H1 H2].
  apply Nat.leb_le in H1, H2, H3.
  destruct (workspace_goal_regions_ (this c)) as [|r rest]; [contradiction|].
  cbn in H1, H2, H3. cbn [region_loop]. unfold sample_region.
  destruct (prepare_region_defined 0 r c) as [c1 Hp]; try lia; auto.
  rewrite Hp.
  destruct (prepare_region_stable 0 r c c1 Hp) as ((_ & _ & _ & _ & _ & Hd1) & _).
  destruct (prepare_region_selects 0 r c c1 Hp) as (kcs & w0 & Hsel).
  rewrite Hnone in Hsel. rewrite Hd in Hd1.
  destruct (samplingAttemptsCount E (world c1)) as [n w].
  pose proof (Hunsolved w) as Hu.
  destruct (hasSolution E w) as [solved w']. cbn in Hu. subst solved.
  change (Z.to_nat max_attempts) with 2%nat. cbn [attempt_loop].
  pose proof (Hsampling (world (with_world w' c1))) as Hs.
  destruct (isSampling E (world (with_world w' c1))) as [sampling w2].
  cbn in Hs. subst sampling.
  now rewrite (attempt_faults 0 (uint32 n) _ (with_world w2 (with_world w' c1)) Hsel Hd1).
Qed.

(** *** Too few constraint messages *)

Lemma region_loop_out_of_range : forall regions i b0 (c : Context),
  (i <= length (constrs_ (this c)))%nat ->
  (length (constrs_ (this c)) < i + length regions)%nat ->
  region_loop E regions i b0 c = None.
Proof.
  induction regions as [|r rest IH]; intros i b0 c Hi Hlen; simpl in *; [lia|].
  destruct (sample_region E i r b0 c) as [[b1 c1]|] eqn:Hs; [|reflexivity].
  destruct (sample_region_stable _ _ _ _ _ _ Hs) as (_ & _ & _ & L & _).
  assert (Hlt : (i < length (constrs_ (this c)))%nat).
  { unfold sample_region in Hs.
    destruct (prepare_region E i r c) as [c0|] eqn:Hp; [|discriminate].
    exact (prepare_region_in_range i r c c0 Hp). }
  apply IH; rewrite L; lia.
Qed.

(** X16. On an object with fewer constraint messages than regions the call
    indexes [constrs_] out of range: it has no defined result. *)
Theorem call_with_too_few_constraints (c : Context) :
  (length (constrs_ (this c)) < length (workspace_goal_regions_ (this c)))%nat ->
  sampleUsingConstraintSampler E c = None.
Proof.
  intros Hlen. apply region_loop_out_of_range; lia.
Qed.

End Facts.

(* ------------------------------------------------------------------ *)
(** ** The code at concrete inputs *)

Import Examples.

(** C1. The position test of [distanceGoal] reads x and y only: with the
    single region [0,1]^3, all angles free, a gripper at (1/2, 1/2, 5) is
    above the box and [distanceGoal] is 0 all the same, not the value 7 of
    the base class. *)
Theorem distanceGoal_ignores_z :
  Qle_bool (p_z (translation (high_pose 1))) (max (z free_box)) = false /\
  inside_box free_box (translation (high_pose 1)) = false /\
  base_distanceGoal (env high_pose 3 true true) 1%nat = 7 /\
  distanceGoal (env high_pose 3 true true) (sampler free_box) 1%nat = Some 0.
Proof. repeat split. Qed.

(** C2. The scan of the roadmap stops at the start vertex: with vertices A,
    B, C in this order, A the end of the solution path at distance 5, B in
    the component of A at distance 3 and C on its own at distance 1, the
    sorted list holds A alone, the goal vertex is A and the path is left as
    it was; B is never listed. *)
Theorem getBetterSolution_lists_up_to_start_vertex :
  region_distance (env axis_pose 3 true true) [centred_box]
    (translation (axis_pose 1)) Infinity = Finite 3 /\
  sameComponent roadmap 0%nat 1%nat = true /\
  sorted_candidates (env axis_pose 3 true true) (sampler centred_box) roadmap 0%nat =
    Some (0%nat, [(Finite 5, 0%nat)]) /\
  goal_vertex roadmap 0%nat [(Finite 5, 0%nat)] = Some 0%nat /\
  getBetterSolution (env axis_pose 3 true true) (sampler centred_box) roadmap [7; 0]%nat =
    Some [7; 0]%nat.
Proof. repeat split. Qed.


(** C5, as stated, fails: with three sampling attempts so far, a constraint
    sampler that projects and a constraint check that fails, the one verbose
    iteration of the call is the second (index 1), which is not among the
    first [max_attempts / 2] = 1. *)
Lemma verbose_in_second_half_counterexample :
  exists b c',
    sampleUsingConstraintSampler (env high_pose 3 true false) (start free_box) =
      Some (b, c') /\
    ~ (forall i a count constrained,
         In (EvAttempt i a count true constrained) (trace c') ->
         (a < max_attempts_div2)%Z).
Proof.
  eexists. eexists. split; [vm_compute; reflexivity|].
  intros H. specialize (H 0%nat 1%Z 0%Z true).
  cbn in H. assert (Hlt : (1 < max_attempts_div2)%Z) by (apply H; auto).
  vm_compute in Hlt. discriminate.
Qed.

(** C8, as stated, fails: with three sampling attempts so far and two
    projected configurations that fail the constraint check, the flag is set
    at a count of 2, which does not exceed 80% of 3. *)
Lemma warned_at_two_of_three_counterexample :
  exists c',
    sampleUsingConstraintSampler (env high_pose 3 true false) (start free_box) =
      Some (false, c') /\
    (forall w, fst (samplingAttemptsCount (env high_pose 3 true false) w) = 3%Z) /\
    In EvWarned (trace c') /\
    warned_invalid_samples_ (this c') = true /\
    invalid_sampled_constraints_ (this c') = 2%Z /\
    ~ (8 # 10) * 3 < 2.
Proof.
  eexists. split; [vm_compute; reflexivity|].
  repeat split; cbn; auto. intros H. vm_compute in H. discriminate.
Qed.

(* ------------------------------------------------------------------ *)
(** ** The theorems at concrete inputs *)

Lemma fixed_roll_off_by_half_witness :
  region_test (env tilted_pose 3 true true) [pose_constraint] 0 fixed_roll_box
    (tilted_pose 0) = Some false.
Proof.
  apply (fixed_roll_off_by_half_not_inside nat nat unit nat
           (env tilted_pose 3 true true) [pose_constraint] 0%nat fixed_roll_box
           (tilted_pose 0) pose_constraint identity); reflexivity.
Defined.

Lemma distanceGoal_inside_free_region_witness :
  distanceGoal (env tilted_pose 3 true true) (sampler free_box) 0%nat = Some 0.
Proof.
  apply (distanceGoal_inside_free_region nat nat unit nat
           (env tilted_pose 3 true true) (sampler free_box) 0%nat free_box).
  - reflexivity.
  - left. reflexivity.
  - reflexivity.
  - reflexivity.
Defined.

Lemma verbose_only_late_and_once_witness :
  exists s tr,
    lifetime (env high_pose 3 true false)
      [CallSample [] 0%nat; CallSample [] 5%nat; CallClear nat nat; CallSample [] 9%nat]
      (sampler free_box) [] = Some (s, tr) /\
    Forall verbose_late tr /\ (verbose_count tr <= 1)%nat.
Proof.
  assert (Hwf : well_formed (sampler free_box) = true) by reflexivity.
  assert (Hres : resolves (env high_pose 3 true false))
    by (intros kcs w; cbn; discriminate).
  destruct (verbose_only_late_and_once nat nat unit nat (env high_pose 3 true false)
              [CallSample [] 0%nat; CallSample [] 5%nat; CallClear nat nat;
               CallSample [] 9%nat]
              0%nat [pose_constraint] [free_box] Hwf) as [Hall Hsome].
  destruct (Hsome Hres) as (s & tr & Hl).
  exists s, tr. split; [exact Hl|exact (Hall s tr Hl)].
Defined.

Lemma attempts_per_region_bounded_witness :
  exists b c' new,
    sampleUsingConstraintSampler (env high_pose 3 true false) (start free_box) =
      Some (b, c') /\
    trace c' = trace (start free_box) ++ new /\
    forall i, (Z.of_nat (attempts_of i new) <= max_attempts)%Z.
Proof.
  refine (proj1 (attempts_per_region_bounded nat nat unit nat
                   (env high_pose 3 true false) (start free_box) _ _)).
  - reflexivity.
  - right. intros kcs w. cbn. discriminate.
Defined.

Lemma invalid_sample_counted_and_warned_once_witness :
  exists c',
    attempt (env high_pose 3 true false) 0 3 0 (prepared free_box) = Some (false, c') /\
    invalid_sampled_constraints_ (this c') = uint32 (0 + 1) /\
    warned_invalid_samples_ (this c') =
      false || (uint32 (3 * 8) / 10 <=? uint32 (0 + 1))%Z.
Proof.
  refine (proj1 (invalid_sample_counted_and_warned_once nat nat unit nat
           (env high_pose 3 true false)
           [CallSample [] 0%nat] 0%nat [pose_constraint] [free_box]
           0%nat 3%Z 0%Z (prepared free_box)
           0%Z 1%nat false (this (prepared free_box)) tt 1%nat 2%nat 3%nat
           _ _ _ _ _ _)); reflexivity.
Defined.


(* ------------------------------------------------------------------ *)
(** ** The further properties at concrete inputs *)

Lemma distanceGoal_outside_every_region_witness :
  distanceGoal (env high_pose 3 true true) (sampler free_box) 3%nat = Some 7.
Proof.
  apply (distanceGoal_outside_every_region nat nat unit nat
           (env high_pose 3 true true) (sampler free_box) 3%nat).
  intros r [<-|[]]. reflexivity.
Defined.

Lemma distanceGoal_zero_or_base_witness :
  distanceGoal (env tilted_pose 3 true true) (sampler fixed_roll_box) 0%nat = Some 0 \/
  distanceGoal (env tilted_pose 3 true true) (sampler fixed_roll_box) 0%nat = Some 7.
Proof.
  apply (distanceGoal_zero_or_base nat nat unit nat
           (env tilted_pose 3 true true) (sampler fixed_roll_box) 0%nat).
  reflexivity.
Defined.

Lemma inside_goal_region_iff_witness :
  inside_goal_region (env tilted_pose 3 true true) [pose_constraint] 0 [free_box]
    (tilted_pose 0) = Some true <->
  exists k r, nth_error [free_box] k = Some r /\
              region_test (env tilted_pose 3 true true) [pose_constraint] k r
                (tilted_pose 0) = Some true.
Proof.
  apply (inside_goal_region_iff nat nat unit nat (env tilted_pose 3 true true)
           (sampler free_box) (tilted_pose 0)).
  reflexivity.
Defined.

Lemma region_distance_is_minimum_witness :
  exists r,
    In r [centred_box; free_box] /\
    region_distance (env axis_pose 3 true true) [centred_box; free_box]
      (translation (axis_pose 1)) Infinity =
      Finite (gr_distance (env axis_pose 3 true true) r (translation (axis_pose 1))) /\
    forall r', In r' [centred_box; free_box] ->
      gr_distance (env axis_pose 3 true true) r (translation (axis_pose 1)) <=
      gr_distance (env axis_pose 3 true true) r' (translation (axis_pose 1)).
Proof.
  apply (region_distance_is_minimum nat nat unit nat (env axis_pose 3 true true)
           [centred_box; free_box] (translation (axis_pose 1))).
  discriminate.
Defined.

Lemma sorted_candidates_start_vertex_witness :
  exists pre post,
    vertices roadmap = pre ++ 1%nat :: post /\
    equalStates (env axis_pose 3 true true) 1%nat (stateProperty_ roadmap 1%nat) = true /\
    (forall v, In v pre ->
       equalStates (env axis_pose 3 true true) 1%nat (stateProperty_ roadmap v) = false) /\
    Permutation [(Finite 3, 1%nat); (Finite 5, 0%nat)]
      (map (scored (env axis_pose 3 true true) (sampler centred_box) roadmap)
         (pre ++ [1%nat])) /\
    StronglySorted tuple_le [(Finite 3, 1%nat); (Finite 5, 0%nat)].
Proof.
  apply (sorted_candidates_start_vertex nat nat unit nat (env axis_pose 3 true true)
           (sampler centred_box) roadmap 1%nat 1%nat
           [(Finite 3, 1%nat); (Finite 5, 0%nat)]).
  reflexivity.
Defined.

Lemma goal_vertex_not_worse_than_start_witness :
  exists v,
    goal_vertex roadmap 1%nat [(Finite 3, 1%nat); (Finite 5, 0%nat)] = Some v /\
    In (scored (env axis_pose 3 true true) (sampler centred_box) roadmap v)
       [(Finite 3, 1%nat); (Finite 5, 0%nat)] /\
    sameComponent roadmap 1%nat v = true /\
    tuple_le (scored (env axis_pose 3 true true) (sampler centred_box) roadmap v)
             (scored (env axis_pose 3 true true) (sampler centred_box) roadmap 1%nat) /\
    forall e, In e [(Finite 3, 1%nat); (Finite 5, 0%nat)] ->
              sameComponent roadmap 1%nat (snd e) = true ->
              tuple_le (scored (env axis_pose 3 true true) (sampler centred_box) roadmap v) e.
Proof.
  apply (goal_vertex_not_worse_than_start nat nat unit nat (env axis_pose 3 true true)
           (sampler centred_box) roadmap 1%nat 1%nat
           [(Finite 3, 1%nat); (Finite 5, 0%nat)]); reflexivity.
Defined.

Lemma getBetterSolution_appends_witness :
  exists suffix,
    getBetterSolution (env axis_pose 3 true true) (sampler centred_box) roadmap
      [7; 1]%nat = Some ([7; 1]%nat ++ suffix) /\
    (suffix = [] \/
     exists sv v,
       In sv (vertices roadmap) /\ sameComponent roadmap sv v = true /\
       equalStates (env axis_pose 3 true true)
         (stateProperty_ roadmap sv) (stateProperty_ roadmap v) = false /\
       suffix = tl (constructSolution roadmap sv v)).
Proof.
  apply (getBetterSolution_appends nat nat unit nat (env axis_pose 3 true true)
           (sampler centred_box) roadmap [7; 1]%nat).
  discriminate.
Defined.

Lemma getBetterSolution_unknown_end_witness :
  getBetterSolution (env axis_pose 3 true true) (sampler centred_box) roadmap
    ([7] ++ [9])%nat = Some ([7] ++ [9])%nat.
Proof.
  apply (getBetterSolution_unknown_end nat nat unit nat (env axis_pose 3 true true)
           (sampler centred_box) roadmap [7]%nat 9%nat).
  intros v [<-|[<-|[<-|[]]]]; reflexivity.
Defined.

Lemma call_keeps_well_formed_witness :
  exists b c',
    sampleUsingConstraintSampler (env high_pose 3 true true) (start fixed_roll_box) =
      Some (b, c') /\
    well_formed (this c') = true /\
    workspace_goal_regions_ (this c') = workspace_goal_regions_ (this (start fixed_roll_box)) /\
    se3_spaces_ (this c') = se3_spaces_ (this (start fixed_roll_box)) /\
    se3_samplers_ (this c') = se3_samplers_ (this (start fixed_roll_box)) /\
    length (constrs_ (this c')) = length (constrs_ (this (start fixed_roll_box))).
Proof.
  apply (call_keeps_well_formed nat nat unit nat (env high_pose 3 true true)
           (start fixed_roll_box)).
  - reflexivity.
  - right. intros kcs w. cbn. discriminate.
Defined.

Lemma call_goals_witness :
  exists added new,
    goals_priority_queue_
      (this (snd (outcome (env high_pose 3 true true) (start free_box)))) =
      added ++ goals_priority_queue_ (this (start free_box)) /\
    sampled_states (snd (outcome (env high_pose 3 true true) (start free_box))) =
      sampled_states (start free_box) ++ new /\
    (length added <= length (workspace_goal_regions_ (this (start free_box))))%nat /\
    Forall (fun g => weight_ g = 1) added /\
    (forall st, In st new -> In {| state_ := st; weight_ := 1 |} added).
Proof.
  apply (call_goals nat nat unit nat (env high_pose 3 true true) (start free_box)
           (fst (outcome (env high_pose 3 true true) (start free_box)))
           (snd (outcome (env high_pose 3 true true) (start free_box)))).
  reflexivity.
Defined.

Lemma call_idle_when_solved_or_stopped_witness :
  fst (outcome solved_env (start free_box)) = false /\
  trace (snd (outcome solved_env (start free_box))) = trace (start free_box) /\
  sampled_states (snd (outcome solved_env (start free_box))) =
    sampled_states (start free_box) /\
  goals_priority_queue_ (this (snd (outcome solved_env (start free_box)))) =
    goals_priority_queue_ (this (start free_box)) /\
  verbose_display_ (this (snd (outcome solved_env (start free_box)))) =
    verbose_display_ (this (start free_box)) /\
  warned_invalid_samples_ (this (snd (outcome solved_env (start free_box)))) =
    warned_invalid_samples_ (this (start free_box)).
Proof.
  apply (call_idle_when_solved_or_stopped nat nat unit nat solved_env (start free_box)
           (fst (outcome solved_env (start free_box)))
           (snd (outcome solved_env (start free_box)))).
  - left. intros w. reflexivity.
  - reflexivity.
Defined.

Lemma prepare_region_effect_witness :
  exists sampler constr constr',
    nth_error (se3_samplers_ (this (start fixed_roll_box))) 0 = Some sampler /\
    nth_error (constrs_ (this (start fixed_roll_box))) 0 = Some constr /\
    nth_error (constrs_ (this (prepared_by (env high_pose 3 true true) fixed_roll_box
                                 (start fixed_roll_box)))) 0 = Some constr' /\
    (forall j, j <> 0%nat ->
       nth_error (constrs_ (this (prepared_by (env high_pose 3 true true) fixed_roll_box
                                    (start fixed_roll_box)))) j =
       nth_error (constrs_ (this (start fixed_roll_box))) j) /\
    kinematic_constraint_set_
      (this (prepared_by (env high_pose 3 true true) fixed_roll_box
               (start fixed_roll_box))) = [constr'] /\
    constraint_sampler_
      (this (prepared_by (env high_pose 3 true true) fixed_roll_box
               (start fixed_roll_box))) =
      fst (selectSampler (env high_pose 3 true true) [constr']
             (snd (se3_sampleUniform (env high_pose 3 true true) sampler
                     (world (start fixed_roll_box))))) /\
    position0 constr' =
      Some {| p_x := getX (fst (se3_sampleUniform (env high_pose 3 true true) sampler
                                  (world (start fixed_roll_box))));
              p_y := getY (fst (se3_sampleUniform (env high_pose 3 true true) sampler
                                  (world (start fixed_roll_box))));
              p_z := getZ (fst (se3_sampleUniform (env high_pose 3 true true) sampler
                                  (world (start fixed_roll_box)))) |} /\
    (free_value (roll fixed_roll_box) || free_value (pitch fixed_roll_box)
       || free_value (yaw fixed_roll_box) = false ->
     orientation_constraints constr' = orientation_constraints constr).
Proof.
  apply (prepare_region_effect nat nat unit nat (env high_pose 3 true true)
           0%nat fixed_roll_box (start fixed_roll_box)
           (prepared_by (env high_pose 3 true true) fixed_roll_box
              (start fixed_roll_box))).
  reflexivity.
Defined.

Lemma call_without_any_sampler_witness :
  sampleUsingConstraintSampler (env high_pose 3 false true) (start free_box) = None.
Proof.
  apply (call_without_any_sampler nat nat unit nat (env high_pose 3 false true)
           (start free_box)).
  - reflexivity.
  - reflexivity.
  - discriminate.
  - intros kcs w. reflexivity.
  - intros w. reflexivity.
  - intros w. reflexivity.
Defined.

Lemma call_with_too_few_constraints_witness :
  sampleUsingConstraintSampler (env high_pose 3 true true) bare = None.
Proof.
  apply (call_with_too_few_constraints nat nat unit nat (env high_pose 3 true true) bare).
  cbn. lia.
Defined.
